(** * iniHandler: a shallow embedding of the INI configuration store

    The repository holds two implementations of [IniHandler]:

    - [MapImpl]: iniHandler.h / iniHandler.cpp built on
      [std::unordered_map<std::string, std::vector<std::pair<...>>>];
    - [VecImpl]: the later iniHandler.h / iniHandler.cpp built on
      [struct iniFile { path; std::vector<iniSection> sections; }], in its
      two revisions: the one with [readValue] / [writeValue] and the one
      with [readEntry] / [writeEntry] and their [_str] forms.

    Both read the whole file line by line with [std::getline] and rewrite
    it whole through a [std::ofstream].  The file on disk is modelled by
    [Disk]; the bytes of the file are a [string]. *)

From Stdlib Require Import String Ascii List Bool Arith Lia Permutation.
Import ListNotations.

Local Open Scope string_scope.
Local Open Scope list_scope.

Notation "a +++ b" := (String.append a b) (right associativity, at level 60).

(** ** The pieces of [std::string] the handler uses *)

(** ['\n'], the delimiter of [std::getline] and the end of every written line. *)
Definition LF : ascii := "010"%char.

(** The one-character string ["\n"]. *)
Definition nl : string := String LF EmptyString.

(** [s.empty()]. *)
Definition empty (s : string) : bool :=
  match s with
  | EmptyString => true
  | String _ _ => false
  end.

(** [s.front()]; the code only calls it on a non-empty line. *)
Definition front (s : string) : option ascii := String.get 0 s.

(** [s.back()]; the code only calls it on a non-empty line. *)
Definition back (s : string) : option ascii := String.get (String.length s - 1) s.

(** [s.find(c)]: the position of the first [c]; [None] is [std::string::npos]. *)
Fixpoint find (c : ascii) (s : string) : option nat :=
  match s with
  | EmptyString => None
  | String a s' => if Ascii.eqb a c then Some 0 else option_map S (find c s')
  end.

(** [s.substr(pos, len)] for [pos <= s.size()]: [len] is clipped to the end. *)
Definition substr (pos len : nat) (s : string) : string := String.substring pos len s.

(** [s.substr(pos)] for [pos <= s.size()]: everything from [pos] on. *)
Definition substr_from (pos : nat) (s : string) : string :=
  String.substring pos (String.length s - pos) s.

(** The header test of [readAll]:
    [line.front() == '[' && line.back() == ']']. *)
Definition is_header (line : string) : bool :=
  match front line, back line with
  | Some a, Some b => Ascii.eqb a "["%char && Ascii.eqb b "]"%char
  | _, _ => false
  end.

(** Whether a string holds the character [c]. *)
Fixpoint contains (c : ascii) (s : string) : bool :=
  match s with
  | EmptyString => false
  | String a s' => Ascii.eqb a c || contains c s'
  end.

(** ** [while (std::getline(in, line))]

    The lines the loop sees: the bytes are cut at every ['\n']; a last line
    without a final ['\n'] is still delivered, and nothing is delivered once
    the stream is at its end (so a final ['\n'] does not give an extra empty
    line, and the empty file gives no line at all). *)
Fixpoint getlines (bytes : string) : list string :=
  match bytes with
  | EmptyString => []
  | String c rest =>
      if Ascii.eqb c LF then EmptyString :: getlines rest
      else match getlines rest with
           | [] => [String c EmptyString]
           | l :: ls => String c l :: ls
           end
  end.

(** ** The file behind [iniPath] / [file.path] *)

(** [content] is [None] while no file exists at the path; [may_read] and
    [may_write] say whether a [std::ifstream], respectively a
    [std::ofstream], on the path can be opened. *)
Record Disk : Type := mkDisk {
  content : option string;
  may_read : bool;
  may_write : bool
}.

(** [std::ifstream in(path); in.is_open()]: the bytes of the file, or [None]
    when the stream is not open. *)
Definition open_in (d : Disk) : option string :=
  if may_read d then content d else None.

(** [std::ofstream out(path); ... out << ...]: when the stream opens, the
    file is truncated and then holds exactly what was written. *)
Definition open_out (d : Disk) (written : string) : option Disk :=
  if may_write d
  then Some {| content := Some written; may_read := may_read d; may_write := may_write d |}
  else None.

(** The constructor of both implementations:
    [if (!std::filesystem::exists(path)) { std::ofstream createFile(path); }]. *)
Definition IniHandler_ctor (d : Disk) : Disk :=
  match content d with
  | Some _ => d
  | None => match open_out d EmptyString with
            | Some d' => d'
            | None => d
            end
  end.

(** [bool empty() const] of both implementations:
    [if (!std::filesystem::exists(path)) return true;
     std::ifstream in(path, std::ios::ate); return in.tellg() == 0;].
    Opened at its end, the stream tells the size of the file; on a stream
    that could not be opened [tellg()] is [pos_type(-1)], which is not [0]. *)
Definition IniHandler_empty (d : Disk) : bool :=
  match content d with
  | None => true
  | Some _ =>
      match open_in d with
      | Some bytes => Nat.eqb (String.length bytes) 0
      | None => false
      end
  end.

(** [v[i] = f(v[i])] through a pointer or reference to the [i]-th element. *)
Fixpoint modify_at {A : Type} (f : A -> A) (i : nat) (l : list A) {struct l} : list A :=
  match l with
  | [] => []
  | x :: l' =>
      match i with
      | 0 => f x :: l'
      | S i' => x :: modify_at f i' l'
      end
  end.

(** ** The vector implementation (iniFile / iniSection / iniEntry) *)
Module VecImpl.

(** [struct iniEntry { std::string name; std::string value; }]. *)
Record iniEntry : Type := mkEntry {
  name : string;
  value : string
}.

(** [struct iniSection { std::string name; std::vector<iniEntry> entries; }]. *)
Record iniSection : Type := mkSection {
  section_name : string;
  entries : list iniEntry
}.

(** The member [iniFile file] without its path: the path is the file that
    [Disk] describes. *)
Record iniFile : Type := mkFile {
  sections : list iniSection
}.

(** [s.entries.push_back(e)]. *)
Definition push_entry (e : iniEntry) (s : iniSection) : iniSection :=
  {| section_name := section_name s; entries := entries s ++ [e] |}.

(** The body of the loop of [readAll].  [currentSection] is the index of
    the element the pointer [iniSection* currentSection] refers to, [None]
    for [nullptr]. *)
Definition readAll_line (st : list iniSection * option nat) (line : string)
  : list iniSection * option nat :=
  let '(secs, currentSection) := st in
  if empty line then st
  else if is_header line then
    (secs ++ [{| section_name := substr 1 (String.length line - 2) line;
                 entries := [] |}],
     Some (List.length secs))
  else
    match find "="%char line with
    | None => st
    | Some pos =>
        match currentSection with
        | None => st
        | Some i =>
            (modify_at (push_entry {| name := substr 0 pos line;
                                      value := substr_from (pos + 1) line |}) i secs,
             currentSection)
        end
    end.

(** The sections [readAll] leaves in [file.sections] for the given lines. *)
Definition readAll_lines (lines : list string) : list iniSection :=
  fst (fold_left readAll_line lines ([], None)).

(** [bool IniHandler::readAll()]. *)
Definition readAll (d : Disk) (file : iniFile) : bool * iniFile :=
  match open_in d with
  | None => (false, file)
  | Some bytes => (true, {| sections := readAll_lines (getlines bytes) |})
  end.

(** [for (const auto& entry : s.entries) out << entry.name << "=" << entry.value << "\n";] *)
Fixpoint write_entries (es : list iniEntry) : string :=
  match es with
  | [] => EmptyString
  | e :: es' => name e +++ "=" +++ value e +++ nl +++ write_entries es'
  end.

(** The loop that writes every section: the header line, the entries and
    one empty line. *)
Fixpoint write_sections (secs : list iniSection) : string :=
  match secs with
  | [] => EmptyString
  | s :: secs' =>
      "[" +++ section_name s +++ "]" +++ nl +++
      write_entries (entries s) +++ nl +++ write_sections secs'
  end.

(** The first loop of [writeSection]: the first section with the name gets
    the new entries; the flag is [found]. *)
Fixpoint replace_section (section : iniSection) (secs : list iniSection)
  : list iniSection * bool :=
  match secs with
  | [] => ([], false)
  | s :: rest =>
      if String.eqb (section_name s) (section_name section)
      then ({| section_name := section_name s; entries := entries section |} :: rest, true)
      else let '(rest', found) := replace_section section rest in (s :: rest', found)
  end.

(** [bool IniHandler::writeSection(const iniSection& section)]. *)
Definition writeSection (d : Disk) (file : iniFile) (section : iniSection)
  : bool * iniFile * Disk :=
  match readAll d file with
  | (false, file1) => (false, file1, d)
  | (true, file1) =>
      let '(secs, found) := replace_section section (sections file1) in
      let secs' := if found then secs else secs ++ [section] in
      let file2 := {| sections := secs' |} in
      match open_out d (write_sections secs') with
      | None => (false, file2, d)
      | Some d' => (true, file2, d')
      end
  end.

(** The loop of [readSection]: the answer at the first section with the
    name, [false] when there is none. *)
Fixpoint section_has_entries (n : string) (secs : list iniSection) : bool :=
  match secs with
  | [] => false
  | s :: rest =>
      if String.eqb (section_name s) n
      then negb (match entries s with [] => true | _ => false end)
      else section_has_entries n rest
  end.

(** [bool IniHandler::readSection(const iniSection& section)]. *)
Definition readSection (d : Disk) (file : iniFile) (section : iniSection)
  : bool * iniFile :=
  match readAll d file with
  | (false, file1) => (false, file1)
  | (true, file1) => (section_has_entries (section_name section) (sections file1), file1)
  end.

(** The inner loop of [readEntry]: the value of the first entry with the
    name, the empty string when there is none. *)
Fixpoint entry_value (n : string) (es : list iniEntry) : string :=
  match es with
  | [] => EmptyString
  | e :: rest => if String.eqb (name e) n then value e else entry_value n rest
  end.

(** The outer loop of [readEntry]: it stops ([break]) at the first section
    with the name. *)
Fixpoint section_entry_value (section n : string) (secs : list iniSection) : string :=
  match secs with
  | [] => EmptyString
  | s :: rest =>
      if String.eqb (section_name s) section
      then entry_value n (entries s)
      else section_entry_value section n rest
  end.

(** [std::string IniHandler::readEntry(const std::string& section, const iniEntry& entry)]. *)
Definition readEntry (d : Disk) (file : iniFile) (section : string) (entry : iniEntry)
  : string * iniFile :=
  match readAll d file with
  | (false, file1) => (EmptyString, file1)
  | (true, file1) => (section_entry_value section (name entry) (sections file1), file1)
  end.

(** [std::string IniHandler::readEntry_str(const std::string& section, const iniEntry& key)]. *)
Definition readEntry_str (d : Disk) (file : iniFile) (section : string) (key : iniEntry)
  : string * iniFile :=
  readEntry d file section key.

(** The first loop of [writeEntry]: the index of the first section with
    the name ([targetSection]), [None] for [nullptr]. *)
Fixpoint find_section (section : string) (secs : list iniSection) : option nat :=
  match secs with
  | [] => None
  | s :: rest =>
      if String.eqb (section_name s) section then Some 0
      else option_map S (find_section section rest)
  end.

(** The second loop of [writeEntry]: the first entry with the name gets the
    new value; the flag is [found]. *)
Fixpoint set_value (entry : iniEntry) (es : list iniEntry) : list iniEntry * bool :=
  match es with
  | [] => ([], false)
  | e :: rest =>
      if String.eqb (name e) (name entry)
      then ({| name := name e; value := value entry |} :: rest, true)
      else let '(rest', found) := set_value entry rest in (e :: rest', found)
  end.

(** What [writeEntry] does to [targetSection->entries]: the loop, then
    [if (!found) targetSection->entries.push_back(entry)]. *)
Definition put_entries (entry : iniEntry) (es : list iniEntry) : list iniEntry :=
  let '(es', found) := set_value entry es in
  if found then es' else es' ++ [entry].

(** What [writeEntry] does to [*targetSection]. *)
Definition put_entry (entry : iniEntry) (s : iniSection) : iniSection :=
  {| section_name := section_name s; entries := put_entries entry (entries s) |}.

(** From [iniSection* targetSection = nullptr] to
    [targetSection = &file.sections.back()]: the section the entry goes
    into, as its index, and the sections with it. *)
Definition target_section (section : string) (secs : list iniSection)
  : list iniSection * nat :=
  match find_section section secs with
  | Some i => (secs, i)
  | None => (secs ++ [{| section_name := section; entries := [] |}], List.length secs)
  end.

(** [bool IniHandler::writeEntry(const std::string& section, const iniEntry& entry)]. *)
Definition writeEntry (d : Disk) (file : iniFile) (section : string) (entry : iniEntry)
  : bool * iniFile * Disk :=
  match readAll d file with
  | (false, file1) => (false, file1, d)
  | (true, file1) =>
      let '(secs, targetSection) := target_section section (sections file1) in
      let secs' := modify_at (put_entry entry) targetSection secs in
      let file2 := {| sections := secs' |} in
      match open_out d (write_sections secs') with
      | None => (false, file2, d)
      | Some d' => (true, file2, d')
      end
  end.

(** [bool IniHandler::writeEntry_str(section, key, value)]. *)
Definition writeEntry_str (d : Disk) (file : iniFile) (section key val : string)
  : bool * iniFile * Disk :=
  match readAll d file with
  | (false, file1) => (false, file1, d)
  | (true, file1) => writeEntry d file1 section {| name := key; value := val |}
  end.

(** [std::string IniHandler::readValue(const std::string& section, const std::string& key)]
    of the earlier revision. *)
Definition readValue (d : Disk) (file : iniFile) (section key : string)
  : string * iniFile :=
  match readAll d file with
  | (false, file1) => (EmptyString, file1)
  | (true, file1) => (section_entry_value section key (sections file1), file1)
  end.

(** [bool IniHandler::writeValue(section, key, value)] of the earlier
    revision: the body of [writeEntry] with [{ key, value }] for the entry. *)
Definition writeValue (d : Disk) (file : iniFile) (section key val : string)
  : bool * iniFile * Disk :=
  match readAll d file with
  | (false, file1) => (false, file1, d)
  | (true, file1) =>
      let '(secs, targetSection) := target_section section (sections file1) in
      let secs' := modify_at (put_entry {| name := key; value := val |}) targetSection secs in
      let file2 := {| sections := secs' |} in
      match open_out d (write_sections secs') with
      | None => (false, file2, d)
      | Some d' => (true, file2, d')
      end
  end.

End VecImpl.

(** ** The map implementation ([std::unordered_map]) *)
Module MapImpl.

(** [std::pair<std::string, std::string>]: a key and its value. *)
Definition kv : Type := (string * string)%type.

(** [std::unordered_map<std::string, std::vector<kv>>] as the sequence of
    its nodes in iteration order; no two nodes have the same key. *)
Definition umap : Type := list (string * list kv).

(** The part of [std::unordered_map] the C++ standard leaves to the
    library: where the node of a new key goes in the iteration order (an
    insertion may rehash, so the nodes already there may move too).  The
    law says that inserting adds the node and loses none. *)
Record unordered_map_impl : Type := mkImpl {
  insert_node : string -> list kv -> umap -> umap;
  insert_node_perm :
    forall k v m, Permutation (insert_node k v m) ((k, v) :: m)
}.

(** [m.count(k)]. *)
Fixpoint count (k : string) (m : umap) : nat :=
  match m with
  | [] => 0
  | (k', _) :: m' => if String.eqb k' k then 1 else count k m'
  end.

(** The element [m.find(k)] refers to. *)
Fixpoint lookup (k : string) (m : umap) : option (list kv) :=
  match m with
  | [] => None
  | (k', v) :: m' => if String.eqb k' k then Some v else lookup k m'
  end.

(** [f] applied to the mapped value of the node with key [k]. *)
Fixpoint modify (k : string) (f : list kv -> list kv) (m : umap) : umap :=
  match m with
  | [] => []
  | (k', v) :: m' =>
      if String.eqb k' k then (k', f v) :: m' else (k', v) :: modify k f m'
  end.

Section WithImpl.

Variable U : unordered_map_impl.

(** The map after [m[k]] was evaluated: a missing key gets a node with
    an empty vector. *)
Definition subscript (k : string) (m : umap) : umap :=
  match count k m with
  | 0 => insert_node U k [] m
  | _ => m
  end.

(** [m[k] = v]. *)
Definition assign (k : string) (v : list kv) (m : umap) : umap :=
  modify k (fun _ => v) (subscript k m).

(** [m[k].emplace_back(key, value)]. *)
Definition emplace_back (k : string) (e : kv) (m : umap) : umap :=
  modify k (fun es => es ++ [e]) (subscript k m).

(** The body of the loop of [readAll]; the state is [outData] and
    [currentSection]. *)
Definition readAll_line (st : umap * string) (line : string) : umap * string :=
  let '(outData, currentSection) := st in
  if empty line then st
  else if is_header line then
    (outData, substr 1 (String.length line - 2) line)
  else
    match find "="%char line with
    | None => st
    | Some pos =>
        (emplace_back currentSection
           (substr 0 pos line, substr_from (pos + 1) line) outData,
         currentSection)
    end.

(** [outData] after the loop of [readAll] over the given lines. *)
Definition readAll_lines (lines : list string) : umap :=
  fst (fold_left readAll_line lines ([], EmptyString)).

(** [bool IniHandler::readAll(std::unordered_map<...>& outData)]. *)
Definition readAll (d : Disk) (outData : umap) : bool * umap :=
  match open_in d with
  | None => (false, outData)
  | Some bytes => (true, readAll_lines (getlines bytes))
  end.

(** [for (const auto& kv : s.second) out << kv.first << "=" << kv.second << "\n";] *)
Fixpoint write_entries (es : list kv) : string :=
  match es with
  | [] => EmptyString
  | (k, v) :: es' => k +++ "=" +++ v +++ nl +++ write_entries es'
  end.

(** [for (const auto& s : allData) { ... }]: the nodes in iteration order. *)
Fixpoint write_map (m : umap) : string :=
  match m with
  | [] => EmptyString
  | (n, es) :: m' =>
      "[" +++ n +++ "]" +++ nl +++ write_entries es +++ nl +++ write_map m'
  end.

(** [bool IniHandler::writeSection(const std::string& section, const std::vector<kv>& entries)]. *)
Definition writeSection (d : Disk) (section : string) (entries : list kv)
  : bool * Disk :=
  let '(_, allData) := readAll d [] in
  let allData' := assign section entries allData in
  match open_out d (write_map allData') with
  | None => (false, d)
  | Some d' => (true, d')
  end.

(** [bool IniHandler::readSection(const std::string& section, std::vector<kv>& outEntries)];
    the second component is [outEntries] at the return. *)
Definition readSection (d : Disk) (section : string) (outEntries : list kv)
  : bool * list kv :=
  match readAll d [] with
  | (false, _) => (false, outEntries)
  | (true, allData) =>
      match count section allData with
      | 0 => (false, [])
      | _ =>
          match lookup section (subscript section allData) with
          | Some es => (true, es)
          | None => (true, [])
          end
      end
  end.

(** The loop of [readValue] and of [writeValue] over the entries. *)
Fixpoint first_value (key : string) (es : list kv) : string :=
  match es with
  | [] => EmptyString
  | (k, v) :: rest => if String.eqb k key then v else first_value key rest
  end.

(** [std::string IniHandler::readValue(const std::string& section, const std::string& key)]. *)
Definition readValue (d : Disk) (section key : string) : string :=
  match readAll d [] with
  | (false, _) => EmptyString
  | (true, allData) =>
      match count section allData with
      | 0 => EmptyString
      | _ =>
          match lookup section (subscript section allData) with
          | Some es => first_value key es
          | None => EmptyString
          end
      end
  end.

(** The loop of [writeValue]: the first pair with the key gets the new
    value; the flag is [found]. *)
Fixpoint set_value (key val : string) (es : list kv) : list kv * bool :=
  match es with
  | [] => ([], false)
  | (k, v) :: rest =>
      if String.eqb k key then ((k, val) :: rest, true)
      else let '(rest', found) := set_value key val rest in ((k, v) :: rest', found)
  end.

(** What [writeValue] does to [entries]: the loop, then
    [if (!found) entries.emplace_back(key, value)]. *)
Definition put_value (key val : string) (entries : list kv) : list kv :=
  let '(entries1, found) := set_value key val entries in
  if found then entries1 else entries1 ++ [(key, val)].

(** [bool IniHandler::writeValue(section, key, value)]. *)
Definition writeValue (d : Disk) (section key val : string) : bool * Disk :=
  let '(_, entries) := readSection d section [] in
  writeSection d section (put_value key val entries).

End WithImpl.

(** Two libraries: one links the node of a new key in at the front of the
    iteration order, the other at its end. *)
Definition front_inserting : unordered_map_impl :=
  {| insert_node := fun k v m => (k, v) :: m;
     insert_node_perm := fun k v m => Permutation_refl ((k, v) :: m) |}.

Definition back_inserting : unordered_map_impl :=
  {| insert_node := fun k v m => m ++ [(k, v)];
     insert_node_perm := fun k v m =>
       Permutation_sym (Permutation_cons_append m (k, v)) |}.

End MapImpl.

(** ** Vocabulary of the statements *)

(** The line [out << key << "=" << value] writes, without its ['\n']. *)
Definition kv_line (k v : string) : string := k +++ "=" +++ v.

(** The line [out << "[" << name << "]"] writes, without its ['\n']. *)
Definition header_line (n : string) : string := "[" +++ n +++ "]".

(** What the loop of [readAll] (either one) takes from a line that it treats
    as an entry: the text before the first ['='] and the text after it. *)
Definition split_line (line : string) : option (string * string) :=
  if empty line then None
  else if is_header line then None
  else match find "="%char line with
       | None => None
       | Some pos => Some (substr 0 pos line, substr_from (pos + 1) line)
       end.

(** A string without ['\n']. *)
Definition one_line (s : string) : Prop := contains LF s = false.

(** A pair that survives being written as a line and read back. *)
Definition line_safe (k v : string) : Prop :=
  one_line (kv_line k v) /\ split_line (kv_line k v) = Some (k, v).

(** A key and a value that can be told apart again on the line they are
    written on: the key has no ['='], neither has a ['\n'], and the key does
    not begin with ['[']. *)
Definition plain_key (k : string) : Prop :=
  contains "="%char k = false /\ contains LF k = false /\ front k <> Some "["%char.

Definition plain_value (v : string) : Prop := contains LF v = false.

Definition plain_pair (e : MapImpl.kv) : Prop := plain_key (fst e) /\ plain_value (snd e).

Definition plain_entry (e : VecImpl.iniEntry) : Prop :=
  plain_key (VecImpl.name e) /\ plain_value (VecImpl.value e).

(** *** The vector implementation *)

(** An entry, a section, a sequence of sections that survive being written
    and read back. *)
Definition entry_safe (e : VecImpl.iniEntry) : Prop :=
  line_safe (VecImpl.name e) (VecImpl.value e).

Definition section_safe (s : VecImpl.iniSection) : Prop :=
  one_line (VecImpl.section_name s) /\ Forall entry_safe (VecImpl.entries s).

Definition sections_safe (secs : list VecImpl.iniSection) : Prop :=
  Forall section_safe secs.

(** The lines [writeSection] and [writeEntry] write for one entry, and for
    one section. *)
Definition entry_line (e : VecImpl.iniEntry) : string :=
  kv_line (VecImpl.name e) (VecImpl.value e).

Definition section_lines (s : VecImpl.iniSection) : list string :=
  header_line (VecImpl.section_name s)
    :: map entry_line (VecImpl.entries s) ++ [EmptyString].

(** The entries the loop of [readAll] takes from lines that hold no header. *)
Definition entries_of_lines (body : list string) : list VecImpl.iniEntry :=
  flat_map (fun l => match split_line l with
                     | Some (k, v) => [VecImpl.mkEntry k v]
                     | None => []
                     end) body.

(** The names on the header lines, in file order. *)
Definition header_names (lines : list string) : list string :=
  map (fun l => substr 1 (String.length l - 2) l) (filter is_header lines).

(** The first section with the name. *)
Definition first_section (n : string) (secs : list VecImpl.iniSection)
  : option VecImpl.iniSection :=
  List.find (fun s => String.eqb (VecImpl.section_name s) n) secs.

(** The entries with the key. *)
Definition entries_named (k : string) (es : list VecImpl.iniEntry)
  : list VecImpl.iniEntry :=
  filter (fun e => String.eqb (VecImpl.name e) k) es.

(** [file.sections] when [writeEntry] opens the output stream, and when
    [writeSection] does. *)
Definition sections_after_entry (section : string) (entry : VecImpl.iniEntry)
           (secs : list VecImpl.iniSection) : list VecImpl.iniSection :=
  let '(secs1, i) := VecImpl.target_section section secs in
  modify_at (VecImpl.put_entry entry) i secs1.

Definition sections_after_section (section : VecImpl.iniSection)
           (secs : list VecImpl.iniSection) : list VecImpl.iniSection :=
  let '(secs1, found) := VecImpl.replace_section section secs in
  if found then secs1 else secs1 ++ [section].


(** *** The map implementation *)

(** The keys of the nodes, in iteration order. *)
Definition keys (m : MapImpl.umap) : list string := map fst m.

(** A pair, a node, a map that survive being written and read back. *)
Definition pair_safe (e : MapImpl.kv) : Prop := line_safe (fst e) (snd e).

Definition node_safe (nd : string * list MapImpl.kv) : Prop :=
  one_line (fst nd) /\ Forall pair_safe (snd nd).

Definition map_safe (m : MapImpl.umap) : Prop := Forall node_safe m.

(** The lines [writeSection] writes for one pair, and for one node. *)
Definition pair_line (e : MapImpl.kv) : string := kv_line (fst e) (snd e).

Definition node_lines (nd : string * list MapImpl.kv) : list string :=
  header_line (fst nd) :: map pair_line (snd nd) ++ [EmptyString].

(** The vector [m[k]] would give: empty for a missing key. *)
Definition at_key (k : string) (m : MapImpl.umap) : list MapImpl.kv :=
  match MapImpl.lookup k m with
  | Some es => es
  | None => []
  end.

(** What a key maps to once the lines written for [new] were read into a
    map where it mapped to [old]: a section written without entries leaves
    no trace, the entries of any other are appended. *)
Definition merged (old new : option (list MapImpl.kv)) : option (list MapImpl.kv) :=
  match new with
  | Some (e :: es) =>
      Some (match old with Some es0 => es0 | None => [] end ++ e :: es)
  | _ => old
  end.

(** The pairs with the key. *)
Definition pairs_with (key : string) (es : list MapImpl.kv) : list MapImpl.kv :=
  filter (fun e => String.eqb (fst e) key) es.

(** The pairs the loop of [readAll] takes from lines that hold no header. *)
Definition pairs_of_lines (body : list string) : list MapImpl.kv :=
  flat_map (fun l => match split_line l with
                     | Some (k, v) => [(k, v)]
                     | None => []
                     end) body.

(** *** Sections as the file shows them *)

(** The pairs of the key=value lines of a file that stand under the name
    [n], in file order: a key=value line stands under the name of the last
    header line before it, and under the empty name when no header line
    precedes it.  [cur] is the name the lines stand under at the start. *)
Fixpoint pairs_under (n cur : string) (lines : list string) : list MapImpl.kv :=
  match lines with
  | [] => []
  | l :: ls =>
      if is_header l then pairs_under n (substr 1 (String.length l - 2) l) ls
      else match split_line l with
           | Some (k, v) =>
               if String.eqb cur n then (k, v) :: pairs_under n cur ls
               else pairs_under n cur ls
           | None => pairs_under n cur ls
           end
  end.

(** The entries of the key=value lines at the start of [lines], up to the
    first header line. *)
Fixpoint body_entries (lines : list string) : list VecImpl.iniEntry :=
  match lines with
  | [] => []
  | l :: ls =>
      if is_header l then []
      else match split_line l with
           | Some (k, v) => VecImpl.mkEntry k v :: body_entries ls
           | None => body_entries ls
           end
  end.

(** The first section named [n] of a file: the entries of the key=value
    lines between the first header line with the name [n] and the header
    line that follows it; [None] when no header line has the name. *)
Fixpoint first_block (n : string) (lines : list string) : option (list VecImpl.iniEntry) :=
  match lines with
  | [] => None
  | l :: ls =>
      if is_header l && String.eqb (substr 1 (String.length l - 2) l) n
      then Some (body_entries ls)
      else first_block n ls
  end.

(** The state of the loop of [readAll] between two lines: no key twice,
    everything in the map can be written and read back, and so can the
    current name. *)
Definition reading_inv (st : MapImpl.umap * string) : Prop :=
  NoDup (keys (fst st)) /\ map_safe (fst st) /\ one_line (snd st).

(** ** Strings *)

Lemma append_assoc (a b c : string) : (a +++ b) +++ c = a +++ b +++ c.
Proof.
  induction a as [|x a IH]; simpl; [reflexivity | now rewrite IH].
Qed.

Lemma append_empty_r (a : string) : a +++ EmptyString = a.
Proof.
  induction a as [|x a IH]; simpl; [reflexivity | now rewrite IH].
Qed.

Lemma length_append (a b : string) :
  String.length (a +++ b) = String.length a + String.length b.
Proof.
  induction a as [|x a IH]; simpl; [reflexivity | now rewrite IH].
Qed.

Lemma contains_append (c : ascii) (a b : string) :
  contains c (a +++ b) = contains c a || contains c b.
Proof.
  induction a as [|x a IH]; simpl; [reflexivity |].
  rewrite IH. now rewrite orb_assoc.
Qed.

Lemma getlines_nil (s : string) : getlines s = [] -> s = EmptyString.
Proof.
  destruct s as [|c s]; simpl; [reflexivity |].
  destruct (Ascii.eqb c LF); [discriminate |].
  destruct (getlines s); discriminate.
Qed.

(** One line followed by its ['\n'] is delivered as such by [std::getline]. *)
Lemma getlines_line (l rest : string) :
  one_line l -> getlines (l +++ nl +++ rest) = l :: getlines rest.
Proof.
  unfold one_line. change (nl +++ rest) with (String LF rest).
  induction l as [|c l IH]; simpl; intros H.
  - reflexivity.
  - apply orb_false_iff in H. destruct H as [Hc Hl].
    rewrite Hc. now rewrite (IH Hl).
Qed.

Lemma getlines_one_line (s : string) : Forall one_line (getlines s).
Proof.
  unfold one_line. induction s as [|c s IH]; simpl.
  - constructor.
  - destruct (Ascii.eqb c LF) eqn:Hc.
    + constructor; [reflexivity | exact IH].
    + destruct (getlines s) as [|l ls]; constructor.
      * simpl. now rewrite Hc.
      * constructor.
      * simpl. rewrite Hc. now inversion IH.
      * now inversion IH.
Qed.

Example getlines_two_lines : getlines ("a" +++ nl +++ "b") = ["a"; "b"].
Proof. reflexivity. Qed.

Example getlines_final_newline : getlines ("a" +++ nl +++ "b" +++ nl) = ["a"; "b"].
Proof. reflexivity. Qed.

Example getlines_blank_lines : getlines ("a" +++ nl +++ nl +++ nl) = ["a"; EmptyString; EmptyString].
Proof. reflexivity. Qed.

Example getlines_empty_file : getlines EmptyString = [].
Proof. reflexivity. Qed.

(** A non-empty string is its part before the last character, then that
    character. *)
Lemma back_split (s : string) (a c : ascii) :
  String.get (String.length s) (String a s) = Some c ->
  String a s = String.substring 0 (String.length s) (String a s) +++ String c EmptyString.
Proof.
  revert a. induction s as [|b s IH]; intros a H.
  - simpl in *. now inversion H.
  - cbn [String.length String.get String.substring append] in *.
    f_equal. apply IH. exact H.
Qed.

(** A line that passes the header test is ["["], its name, ["]"]. *)
Lemma is_header_shape (line : string) :
  is_header line = true ->
  line = header_line (substr 1 (String.length line - 2) line).
Proof.
  unfold is_header, front, back, header_line, substr.
  destruct line as [|a line]; [discriminate |].
  replace (String.length (String a line) - 1) with (String.length line)
    by (cbn [String.length]; lia).
  replace (String.length (String a line) - 2) with (String.length line - 1)
    by (cbn [String.length]; lia).
  change (String.get 0 (String a line)) with (Some a).
  destruct (String.get (String.length line) (String a line)) as [b|] eqn:Hb;
    [| discriminate].
  intros H. apply andb_true_iff in H. destruct H as [Ha Hb'].
  apply Ascii.eqb_eq in Ha. apply Ascii.eqb_eq in Hb'. subst a b.
  destruct line as [|c line]; [discriminate |].
  change (String.get (String.length (String c line)) (String "[" (String c line)))
    with (String.get (String.length line) (String c line)) in Hb.
  apply back_split in Hb.
  replace (String.length (String c line) - 1) with (String.length line)
    by (cbn [String.length]; lia).
  change (String.substring 1 (String.length line) (String "[" (String c line)))
    with (String.substring 0 (String.length line) (String c line)).
  change ("[" +++ String.substring 0 (String.length line) (String c line) +++ "]")
    with (String "[" (String.substring 0 (String.length line) (String c line) +++ "]")).
  f_equal. exact Hb.
Qed.

(** Conversely the written header line passes the test and gives its name back. *)
Lemma get_last_append (n : string) (a c : ascii) :
  String.get (String.length (n +++ String c EmptyString)) (String a (n +++ String c EmptyString))
  = Some c.
Proof.
  revert a. induction n as [|b n IH]; intros a; [reflexivity |].
  cbn [append String.length String.get]. apply IH.
Qed.

Lemma substring_all_but_last (n : string) (c : ascii) :
  String.substring 0 (String.length n) (n +++ String c EmptyString) = n.
Proof.
  induction n as [|b n IH]; [reflexivity |].
  cbn [append String.length String.substring]. now rewrite IH.
Qed.

Lemma is_header_header_line (n : string) : is_header (header_line n) = true.
Proof.
  unfold is_header, front, back, header_line.
  change ("[" +++ n +++ "]") with (String "[" (n +++ "]")).
  replace (String.length (String "[" (n +++ "]")) - 1) with (String.length (n +++ "]"))
    by (cbn [String.length]; lia).
  change (String.get 0 (String "[" (n +++ "]"))) with (Some "["%char).
  now rewrite get_last_append.
Qed.

Lemma substr_header_line (n : string) :
  substr 1 (String.length (header_line n) - 2) (header_line n) = n.
Proof.
  unfold substr, header_line.
  cbn [append String.length]. rewrite length_append. cbn [String.length].
  replace (S (String.length n + 1) - 2) with (String.length n) by lia.
  cbn [String.substring]. apply substring_all_but_last.
Qed.

Lemma empty_header_line (n : string) : empty (header_line n) = false.
Proof. reflexivity. Qed.

(** The first ['='] cuts a line into the key, the ['='] and the value. *)
Lemma find_split (c : ascii) (line : string) (pos : nat) :
  find c line = Some pos ->
  line = substr 0 pos line +++ String c (substr_from (pos + 1) line).
Proof.
  unfold substr, substr_from. revert pos.
  induction line as [|a line IH]; intros pos H; [discriminate |].
  cbn [find] in H. destruct (Ascii.eqb a c) eqn:Hac.
  - inversion H; subst pos. apply Ascii.eqb_eq in Hac. subst a.
    cbn [String.length Nat.add Nat.sub String.substring append].
    f_equal. clear. rewrite Nat.sub_0_r.
    induction line as [|b line IH]; [reflexivity |].
    cbn [String.length String.substring]. now rewrite <- IH.
  - destruct (find c line) as [p|] eqn:Hp; [| discriminate].
    cbn [option_map] in H. inversion H; subst pos.
    cbn [String.length Nat.add Nat.sub String.substring append].
    f_equal. apply IH. reflexivity.
Qed.

Lemma split_line_sound (line k v : string) :
  split_line line = Some (k, v) -> line = kv_line k v.
Proof.
  unfold split_line, kv_line.
  destruct (empty line); [discriminate |].
  destruct (is_header line); [discriminate |].
  destruct (find "="%char line) as [pos|] eqn:Hf; [| discriminate].
  intros H. inversion H; subst k v. now apply find_split.
Qed.

(** Whatever the loop takes from a line of the file can be written and read
    back. *)
Lemma split_line_safe (line k v : string) :
  one_line line -> split_line line = Some (k, v) -> line_safe k v.
Proof.
  intros Hl Hs. pose proof (split_line_sound _ _ _ Hs) as E.
  unfold line_safe. now rewrite <- E.
Qed.

Lemma header_name_one_line (line : string) :
  one_line line -> is_header line = true ->
  one_line (substr 1 (String.length line - 2) line).
Proof.
  intros Hl Hh. apply is_header_shape in Hh.
  unfold one_line in *. rewrite Hh in Hl. unfold header_line in Hl.
  rewrite !contains_append in Hl.
  apply orb_false_iff in Hl. destruct Hl as [_ Hl].
  apply orb_false_iff in Hl. now destruct Hl.
Qed.

Lemma one_line_header_line (n : string) : one_line n -> one_line (header_line n).
Proof.
  unfold one_line, header_line. intros H.
  rewrite !contains_append, H. reflexivity.
Qed.

(** ** The vector implementation: reading back what was written *)

Lemma modify_at_last {A : Type} (f : A -> A) (l : list A) (x : A) :
  modify_at f (List.length l) (l ++ [x]) = l ++ [f x].
Proof.
  induction l as [|y l IH]; simpl; [reflexivity | now rewrite IH].
Qed.

Lemma modify_at_Forall {A : Type} (P : A -> Prop) (f : A -> A) (i : nat) (l : list A) :
  (forall x, P x -> P (f x)) -> Forall P l -> Forall P (modify_at f i l).
Proof.
  intros Hf. revert i. induction l as [|y l IH]; intros i H; simpl.
  - constructor.
  - inversion H; subst. destruct i; constructor; auto.
Qed.

Lemma vec_line_empty (st : list VecImpl.iniSection * option nat) :
  VecImpl.readAll_line st EmptyString = st.
Proof. now destruct st. Qed.

Lemma vec_line_header (secs : list VecImpl.iniSection) (cur : option nat) (n : string) :
  VecImpl.readAll_line (secs, cur) (header_line n)
  = (secs ++ [VecImpl.mkSection n []], Some (List.length secs)).
Proof.
  unfold VecImpl.readAll_line.
  now rewrite empty_header_line, is_header_header_line, substr_header_line.
Qed.

Lemma vec_line_entry (secs : list VecImpl.iniSection) (s : VecImpl.iniSection)
      (line k v : string) :
  split_line line = Some (k, v) ->
  VecImpl.readAll_line (secs ++ [s], Some (List.length secs)) line
  = (secs ++ [VecImpl.push_entry (VecImpl.mkEntry k v) s], Some (List.length secs)).
Proof.
  unfold split_line, VecImpl.readAll_line.
  destruct (empty line); [discriminate |].
  destruct (is_header line); [discriminate |].
  destruct (find "="%char line) as [pos|]; [| discriminate].
  intros H. inversion H; subst k v. now rewrite modify_at_last.
Qed.

Lemma vec_read_entries (es : list VecImpl.iniEntry) :
  Forall entry_safe es ->
  forall (secs : list VecImpl.iniSection) (n : string) (es0 : list VecImpl.iniEntry)
         (more : list string),
    fold_left VecImpl.readAll_line (map entry_line es ++ more)
      (secs ++ [VecImpl.mkSection n es0], Some (List.length secs))
    = fold_left VecImpl.readAll_line more
        (secs ++ [VecImpl.mkSection n (es0 ++ es)], Some (List.length secs)).
Proof.
  induction 1 as [|e es He _ IH]; intros secs n es0 more.
  - cbn [map app]. now rewrite app_nil_r.
  - cbn [map app fold_left]. destruct He as [_ He].
    rewrite (vec_line_entry _ _ _ _ _ He).
    unfold VecImpl.push_entry. cbn [VecImpl.section_name VecImpl.entries].
    rewrite IH. rewrite <- app_assoc. now destruct e.
Qed.

Lemma getlines_vec_entries (es : list VecImpl.iniEntry) (rest : string) :
  Forall entry_safe es ->
  getlines (VecImpl.write_entries es +++ rest) = map entry_line es ++ getlines rest.
Proof.
  induction 1 as [|e es He _ IH]; [reflexivity |].
  destruct He as [He _].
  cbn [VecImpl.write_entries map app].
  replace ((VecImpl.name e +++ "=" +++ VecImpl.value e +++ nl +++ VecImpl.write_entries es) +++ rest)
    with (entry_line e +++ nl +++ (VecImpl.write_entries es +++ rest))
    by (unfold entry_line, kv_line; now rewrite !append_assoc).
  rewrite getlines_line by exact He. now rewrite IH.
Qed.

Lemma getlines_vec_sections (secs : list VecImpl.iniSection) :
  sections_safe secs ->
  getlines (VecImpl.write_sections secs) = flat_map section_lines secs.
Proof.
  induction 1 as [|s secs Hs _ IH]; [reflexivity |].
  destruct Hs as [Hn Hes].
  cbn [VecImpl.write_sections flat_map].
  replace ("[" +++ VecImpl.section_name s +++ "]" +++ nl +++
           VecImpl.write_entries (VecImpl.entries s) +++ nl +++ VecImpl.write_sections secs)
    with (header_line (VecImpl.section_name s) +++ nl +++
          (VecImpl.write_entries (VecImpl.entries s) +++
           (EmptyString +++ nl +++ VecImpl.write_sections secs)))
    by (unfold header_line; now rewrite !append_assoc).
  rewrite getlines_line by now apply one_line_header_line.
  rewrite getlines_vec_entries by exact Hes.
  rewrite getlines_line by reflexivity.
  rewrite IH. unfold section_lines. cbn [app]. now rewrite <- app_assoc.
Qed.

Lemma vec_read_section_lines (secs : list VecImpl.iniSection) :
  sections_safe secs ->
  forall (acc : list VecImpl.iniSection) (cur : option nat),
    fst (fold_left VecImpl.readAll_line (flat_map section_lines secs) (acc, cur))
    = acc ++ secs.
Proof.
  induction 1 as [|s secs Hs _ IH]; intros acc cur.
  - cbn [flat_map fold_left fst]. now rewrite app_nil_r.
  - destruct Hs as [_ Hes]. destruct s as [n es]. cbn [VecImpl.entries] in Hes.
    cbn [flat_map]. unfold section_lines at 1.
    cbn [VecImpl.section_name VecImpl.entries app fold_left].
    rewrite vec_line_header. rewrite <- app_assoc.
    rewrite (vec_read_entries es Hes acc n []).
    cbn [app fold_left]. rewrite vec_line_empty.
    rewrite IH. now rewrite <- app_assoc.
Qed.

(** Reading the bytes written for [secs] gives [secs] back. *)
Lemma vec_read_written (secs : list VecImpl.iniSection) :
  sections_safe secs ->
  VecImpl.readAll_lines (getlines (VecImpl.write_sections secs)) = secs.
Proof.
  intros H. unfold VecImpl.readAll_lines.
  rewrite getlines_vec_sections by exact H.
  now rewrite vec_read_section_lines.
Qed.

Lemma vec_line_safe (st : list VecImpl.iniSection * option nat) (line : string) :
  one_line line -> sections_safe (fst st) ->
  sections_safe (fst (VecImpl.readAll_line st line)).
Proof.
  destruct st as [secs cur]. intros Hl Hs. unfold VecImpl.readAll_line.
  destruct (empty line) eqn:He; [exact Hs |].
  destruct (is_header line) eqn:Hh.
  - simpl. apply Forall_app. split; [exact Hs |].
    constructor; [| constructor]. split; simpl; [| constructor].
    now apply header_name_one_line.
  - destruct (find "="%char line) as [pos|] eqn:Hf; [| exact Hs].
    destruct cur as [i|]; [| exact Hs].
    simpl. apply modify_at_Forall; [| exact Hs].
    intros s [Hn Hes]. split; [exact Hn |].
    simpl. apply Forall_app. split; [exact Hes |].
    constructor; [| constructor].
    apply (split_line_safe line); [exact Hl |].
    unfold split_line. now rewrite He, Hh, Hf.
Qed.

Lemma vec_lines_safe (lines : list string) :
  Forall one_line lines ->
  forall st, sections_safe (fst st) ->
             sections_safe (fst (fold_left VecImpl.readAll_line lines st)).
Proof.
  induction 1 as [|l lines Hl _ IH]; intros st Hs; [exact Hs |].
  cbn [fold_left]. apply IH. now apply vec_line_safe.
Qed.

(** Everything [readAll] takes from a file can be written and read back. *)
Lemma vec_readAll_safe (bytes : string) :
  sections_safe (VecImpl.readAll_lines (getlines bytes)).
Proof.
  apply vec_lines_safe; [apply getlines_one_line | constructor].
Qed.

(** ** The vector implementation: the public operations, unfolded *)

Lemma vec_readAll_eq (d : Disk) (file : VecImpl.iniFile) :
  VecImpl.readAll d file =
  match open_in d with
  | None => (false, file)
  | Some bytes => (true, VecImpl.mkFile (VecImpl.readAll_lines (getlines bytes)))
  end.
Proof. reflexivity. Qed.

Lemma vec_writeEntry_eq (d : Disk) (file : VecImpl.iniFile) (section : string)
      (entry : VecImpl.iniEntry) :
  VecImpl.writeEntry d file section entry =
  match open_in d with
  | None => (false, file, d)
  | Some bytes =>
      let secs := sections_after_entry section entry
                    (VecImpl.readAll_lines (getlines bytes)) in
      match open_out d (VecImpl.write_sections secs) with
      | None => (false, VecImpl.mkFile secs, d)
      | Some d' => (true, VecImpl.mkFile secs, d')
      end
  end.
Proof.
  unfold VecImpl.writeEntry, VecImpl.readAll, sections_after_entry.
  destruct (open_in d) as [bytes|]; [| reflexivity].
  cbn [VecImpl.sections].
  now destruct (VecImpl.target_section section (VecImpl.readAll_lines (getlines bytes))).
Qed.

Lemma vec_writeEntry_str_eq (d : Disk) (file : VecImpl.iniFile) (section key val : string) :
  VecImpl.writeEntry_str d file section key val =
  match open_in d with
  | None => (false, file, d)
  | Some bytes =>
      let secs := sections_after_entry section (VecImpl.mkEntry key val)
                    (VecImpl.readAll_lines (getlines bytes)) in
      match open_out d (VecImpl.write_sections secs) with
      | None => (false, VecImpl.mkFile secs, d)
      | Some d' => (true, VecImpl.mkFile secs, d')
      end
  end.
Proof.
  unfold VecImpl.writeEntry_str. rewrite vec_readAll_eq.
  destruct (open_in d) as [bytes|] eqn:Hin; [| reflexivity].
  rewrite vec_writeEntry_eq. now rewrite Hin.
Qed.

Lemma vec_writeSection_eq (d : Disk) (file : VecImpl.iniFile) (section : VecImpl.iniSection) :
  VecImpl.writeSection d file section =
  match open_in d with
  | None => (false, file, d)
  | Some bytes =>
      let secs := sections_after_section section
                    (VecImpl.readAll_lines (getlines bytes)) in
      match open_out d (VecImpl.write_sections secs) with
      | None => (false, VecImpl.mkFile secs, d)
      | Some d' => (true, VecImpl.mkFile secs, d')
      end
  end.
Proof.
  unfold VecImpl.writeSection, VecImpl.readAll, sections_after_section.
  destruct (open_in d) as [bytes|]; [| reflexivity].
  cbn [VecImpl.sections].
  now destruct (VecImpl.replace_section section (VecImpl.readAll_lines (getlines bytes))).
Qed.

Lemma open_out_Some (d d' : Disk) (w : string) :
  open_out d w = Some d' ->
  may_write d = true /\
  d' = {| content := Some w; may_read := may_read d; may_write := may_write d |}.
Proof.
  unfold open_out. destruct (may_write d); [| discriminate].
  intros H. now inversion H.
Qed.

Lemma open_in_Some (d : Disk) (bytes : string) :
  open_in d = Some bytes -> may_read d = true /\ content d = Some bytes.
Proof.
  unfold open_in. destruct (may_read d); [| discriminate]. now intros H.
Qed.

(** ** The vector implementation: [writeEntry] on the sections *)

Lemma put_entries_cons (e x : VecImpl.iniEntry) (r : list VecImpl.iniEntry) :
  VecImpl.put_entries e (x :: r) =
  if String.eqb (VecImpl.name x) (VecImpl.name e)
  then VecImpl.mkEntry (VecImpl.name x) (VecImpl.value e) :: r
  else x :: VecImpl.put_entries e r.
Proof.
  unfold VecImpl.put_entries. cbn [VecImpl.set_value].
  destruct (String.eqb (VecImpl.name x) (VecImpl.name e)); [reflexivity |].
  now destruct (VecImpl.set_value e r) as [r' [|]].
Qed.

Lemma put_entries_nil (e : VecImpl.iniEntry) : VecImpl.put_entries e [] = [e].
Proof. reflexivity. Qed.

Lemma put_entries_idem (e : VecImpl.iniEntry) (es : list VecImpl.iniEntry) :
  VecImpl.put_entries e (VecImpl.put_entries e es) = VecImpl.put_entries e es.
Proof.
  induction es as [|x r IH].
  - rewrite put_entries_nil, put_entries_cons, String.eqb_refl. now destruct e.
  - rewrite put_entries_cons.
    destruct (String.eqb (VecImpl.name x) (VecImpl.name e)) eqn:E.
    + rewrite put_entries_cons. cbn [VecImpl.name VecImpl.value]. now rewrite E.
    + rewrite put_entries_cons, E. now rewrite IH.
Qed.

Lemma put_entry_idem (e : VecImpl.iniEntry) (s : VecImpl.iniSection) :
  VecImpl.put_entry e (VecImpl.put_entry e s) = VecImpl.put_entry e s.
Proof.
  unfold VecImpl.put_entry. cbn [VecImpl.section_name VecImpl.entries].
  now rewrite put_entries_idem.
Qed.

Lemma put_entries_safe (e : VecImpl.iniEntry) (es : list VecImpl.iniEntry) :
  entry_safe e -> Forall entry_safe es -> Forall entry_safe (VecImpl.put_entries e es).
Proof.
  intros He. induction 1 as [|x r Hx Hr IH].
  - rewrite put_entries_nil. now constructor.
  - rewrite put_entries_cons.
    destruct (String.eqb (VecImpl.name x) (VecImpl.name e)) eqn:E.
    + constructor; [| exact Hr]. apply String.eqb_eq in E.
      unfold entry_safe. cbn [VecImpl.name VecImpl.value]. rewrite E. exact He.
    + now constructor.
Qed.

(** The one entry with the key gets the new value, and stays the only one. *)
Lemma put_entries_named (k old new : string) (es : list VecImpl.iniEntry) :
  entries_named k es = [VecImpl.mkEntry k old] ->
  entries_named k (VecImpl.put_entries (VecImpl.mkEntry k new) es)
  = [VecImpl.mkEntry k new].
Proof.
  unfold entries_named. induction es as [|x r IH]; [discriminate |].
  rewrite put_entries_cons. cbn [filter VecImpl.name VecImpl.value].
  destruct (String.eqb (VecImpl.name x) k) eqn:E.
  - intros H. injection H as Hx Hr. subst x.
    cbn [filter VecImpl.name]. now rewrite String.eqb_refl, Hr.
  - intros H. cbn [filter]. rewrite E. now apply IH.
Qed.

Lemma find_section_modify (n : string) (f : VecImpl.iniSection -> VecImpl.iniSection)
      (i : nat) (secs : list VecImpl.iniSection) :
  (forall s, VecImpl.section_name (f s) = VecImpl.section_name s) ->
  VecImpl.find_section n (modify_at f i secs) = VecImpl.find_section n secs.
Proof.
  intros Hf. revert i. induction secs as [|s secs IH]; intros i; [reflexivity |].
  destruct i; cbn [modify_at VecImpl.find_section].
  - now rewrite Hf.
  - now rewrite IH.
Qed.

Lemma find_section_last (n : string) (s : VecImpl.iniSection) (secs : list VecImpl.iniSection) :
  VecImpl.find_section n secs = None -> VecImpl.section_name s = n ->
  VecImpl.find_section n (secs ++ [s]) = Some (List.length secs).
Proof.
  intros H Hs. induction secs as [|x secs IH]; cbn [app VecImpl.find_section List.length].
  - rewrite Hs, String.eqb_refl. reflexivity.
  - cbn [VecImpl.find_section] in H.
    destruct (String.eqb (VecImpl.section_name x) n); [discriminate |].
    destruct (VecImpl.find_section n secs); [discriminate |].
    now rewrite IH.
Qed.

Lemma modify_at_idem {A : Type} (f : A -> A) (i : nat) (l : list A) :
  (forall x, f (f x) = f x) -> modify_at f i (modify_at f i l) = modify_at f i l.
Proof.
  intros Hf. revert i. induction l as [|x l IH]; intros i; [reflexivity |].
  destruct i; cbn [modify_at]; [now rewrite Hf | now rewrite IH].
Qed.

(** Doing the update of [writeEntry] again changes nothing. *)
Lemma sections_after_entry_idem (section : string) (e : VecImpl.iniEntry)
      (secs : list VecImpl.iniSection) :
  sections_after_entry section e (sections_after_entry section e secs)
  = sections_after_entry section e secs.
Proof.
  unfold sections_after_entry at 2 3. unfold VecImpl.target_section.
  destruct (VecImpl.find_section section secs) as [i|] eqn:Hf.
  - unfold sections_after_entry, VecImpl.target_section.
    rewrite find_section_modify by reflexivity. rewrite Hf.
    apply modify_at_idem, put_entry_idem.
  - rewrite modify_at_last.
    unfold sections_after_entry, VecImpl.target_section.
    rewrite (find_section_last _ _ _ Hf) by reflexivity.
    rewrite modify_at_last. now rewrite put_entry_idem.
Qed.

Lemma sections_after_entry_safe (section : string) (e : VecImpl.iniEntry)
      (secs : list VecImpl.iniSection) :
  one_line section -> entry_safe e -> sections_safe secs ->
  sections_safe (sections_after_entry section e secs).
Proof.
  intros Hn He Hs. unfold sections_after_entry, VecImpl.target_section.
  assert (Hput : forall s, section_safe s -> section_safe (VecImpl.put_entry e s)).
  { intros s [H1 H2]. split; [exact H1 |]. now apply put_entries_safe. }
  destruct (VecImpl.find_section section secs) as [i|].
  - now apply modify_at_Forall.
  - apply modify_at_Forall; [exact Hput |].
    apply Forall_app. split; [exact Hs |].
    constructor; [| constructor]. split; [exact Hn | constructor].
Qed.

(** ** The map implementation: [std::unordered_map] *)

Lemma count_lookup (k : string) (m : MapImpl.umap) :
  MapImpl.count k m = match MapImpl.lookup k m with Some _ => 1 | None => 0 end.
Proof.
  induction m as [|[k' v] m IH]; [reflexivity |].
  cbn [MapImpl.count MapImpl.lookup]. now destruct (String.eqb k' k).
Qed.

Lemma lookup_None (k : string) (m : MapImpl.umap) :
  MapImpl.lookup k m = None <-> ~ In k (keys m).
Proof.
  induction m as [|[k' v] m IH]; cbn [MapImpl.lookup keys map fst In].
  - tauto.
  - destruct (String.eqb_spec k' k) as [E|E].
    + split; [discriminate | intros H; exfalso; apply H; now left].
    + fold (keys m). rewrite IH. tauto.
Qed.

Lemma lookup_Some_In (k : string) (v : list MapImpl.kv) (m : MapImpl.umap) :
  MapImpl.lookup k m = Some v -> In (k, v) m.
Proof.
  induction m as [|[k' v'] m IH]; cbn [MapImpl.lookup In]; [discriminate |].
  destruct (String.eqb_spec k' k) as [E|E].
  - intros H. inversion H; subst. now left.
  - intros H. right. now apply IH.
Qed.

Lemma In_lookup (k : string) (v : list MapImpl.kv) (m : MapImpl.umap) :
  NoDup (keys m) -> In (k, v) m -> MapImpl.lookup k m = Some v.
Proof.
  induction m as [|[k' v'] m IH]; cbn [MapImpl.lookup In keys map fst]; [tauto |].
  intros Hnd [H|H]; inversion Hnd as [|? ? Hk Hm]; subst.
  - inversion H; subst. now rewrite String.eqb_refl.
  - destruct (String.eqb_spec k' k) as [E|E].
    + subst k'. exfalso. apply Hk. now apply (in_map fst) in H.
    + now apply IH.
Qed.

Lemma keys_perm (m1 m2 : MapImpl.umap) :
  Permutation m1 m2 -> Permutation (keys m1) (keys m2).
Proof. apply Permutation_map. Qed.

(** What a key maps to does not depend on the iteration order. *)
Lemma lookup_perm (k : string) (m1 m2 : MapImpl.umap) :
  NoDup (keys m1) -> Permutation m1 m2 -> MapImpl.lookup k m1 = MapImpl.lookup k m2.
Proof.
  intros Hnd Hp.
  assert (Hnd2 : NoDup (keys m2)) by (eapply Permutation_NoDup; [apply keys_perm|]; eauto).
  destruct (MapImpl.lookup k m1) as [v|] eqn:H1.
  - symmetry. apply In_lookup; [exact Hnd2 |].
    eapply Permutation_in; [exact Hp |]. now apply lookup_Some_In.
  - symmetry. apply lookup_None. apply lookup_None in H1.
    intros Hin. apply H1. eapply Permutation_in; [| exact Hin].
    apply Permutation_sym. now apply keys_perm.
Qed.

Lemma keys_modify (k : string) (f : list MapImpl.kv -> list MapImpl.kv) (m : MapImpl.umap) :
  keys (MapImpl.modify k f m) = keys m.
Proof.
  induction m as [|[k' v] m IH]; [reflexivity |].
  cbn [MapImpl.modify]. destruct (String.eqb k' k); [reflexivity |].
  cbn [keys map fst]. fold (keys m). fold (keys (MapImpl.modify k f m)). now rewrite IH.
Qed.

Lemma lookup_modify (k k' : string) (f : list MapImpl.kv -> list MapImpl.kv)
      (m : MapImpl.umap) :
  MapImpl.lookup k' (MapImpl.modify k f m) =
  if String.eqb k k' then option_map f (MapImpl.lookup k m) else MapImpl.lookup k' m.
Proof.
  induction m as [|[k0 v] m IH]; cbn [MapImpl.modify MapImpl.lookup].
  - now destruct (String.eqb k k').
  - destruct (String.eqb_spec k0 k) as [E|E]; cbn [MapImpl.lookup].
    + subst k0. destruct (String.eqb_spec k k') as [E'|E']; reflexivity.
    + rewrite IH. destruct (String.eqb_spec k0 k') as [E1|E1]; [| reflexivity].
      subst k0. destruct (String.eqb_spec k k') as [E2|E2]; [congruence | reflexivity].
Qed.

Lemma modify_safe (k : string) (f : list MapImpl.kv -> list MapImpl.kv) (m : MapImpl.umap) :
  (forall es, Forall pair_safe es -> Forall pair_safe (f es)) ->
  map_safe m -> map_safe (MapImpl.modify k f m).
Proof.
  intros Hf. induction 1 as [|[k' v] m [H1 H2] Hm IH]; cbn [MapImpl.modify].
  - constructor.
  - cbn [fst snd] in H1, H2.
    destruct (String.eqb k' k); constructor; try assumption;
      split; cbn [fst snd]; auto.
Qed.

Section MapFacts.

Variable U : MapImpl.unordered_map_impl.

Lemma subscript_present (k : string) (m : MapImpl.umap) :
  MapImpl.lookup k m <> None -> MapImpl.subscript U k m = m.
Proof.
  intros H. unfold MapImpl.subscript. rewrite count_lookup.
  now destruct (MapImpl.lookup k m).
Qed.

Lemma subscript_perm (k : string) (m : MapImpl.umap) :
  MapImpl.lookup k m = None ->
  Permutation ((k, []) :: m) (MapImpl.subscript U k m).
Proof.
  intros H. unfold MapImpl.subscript. rewrite count_lookup, H.
  apply Permutation_sym, MapImpl.insert_node_perm.
Qed.

Lemma subscript_nodup (k : string) (m : MapImpl.umap) :
  NoDup (keys m) -> NoDup (keys (MapImpl.subscript U k m)).
Proof.
  intros Hnd. destruct (MapImpl.lookup k m) as [v|] eqn:H.
  - rewrite subscript_present by congruence. exact Hnd.
  - eapply Permutation_NoDup; [apply keys_perm, subscript_perm, H |].
    cbn [keys map fst]. constructor; [now apply lookup_None | exact Hnd].
Qed.

Lemma lookup_subscript (k k' : string) (m : MapImpl.umap) :
  NoDup (keys m) ->
  MapImpl.lookup k' (MapImpl.subscript U k m) =
  if String.eqb k k' then Some (at_key k m) else MapImpl.lookup k' m.
Proof.
  intros Hnd. unfold at_key. destruct (MapImpl.lookup k m) as [v|] eqn:H.
  - rewrite subscript_present by congruence.
    destruct (String.eqb_spec k k') as [E|E]; [now subst k' | reflexivity].
  - rewrite <- (lookup_perm k' ((k, []) :: m)).
    + cbn [MapImpl.lookup]. now destruct (String.eqb k k').
    + cbn [keys map fst]. constructor; [now apply lookup_None | exact Hnd].
    + now apply subscript_perm.
Qed.

Lemma subscript_safe (k : string) (m : MapImpl.umap) :
  one_line k -> map_safe m -> map_safe (MapImpl.subscript U k m).
Proof.
  intros Hk Hm. destruct (MapImpl.lookup k m) as [v|] eqn:H.
  - rewrite subscript_present by congruence. exact Hm.
  - eapply Permutation_Forall; [apply subscript_perm, H |].
    constructor; [| exact Hm]. split; [exact Hk | constructor].
Qed.

Lemma emplace_back_nodup (k : string) (e : MapImpl.kv) (m : MapImpl.umap) :
  NoDup (keys m) -> NoDup (keys (MapImpl.emplace_back U k e m)).
Proof.
  intros H. unfold MapImpl.emplace_back. rewrite keys_modify.
  now apply subscript_nodup.
Qed.

Lemma lookup_emplace_back (k k' : string) (e : MapImpl.kv) (m : MapImpl.umap) :
  NoDup (keys m) ->
  MapImpl.lookup k' (MapImpl.emplace_back U k e m) =
  if String.eqb k k' then Some (at_key k m ++ [e]) else MapImpl.lookup k' m.
Proof.
  intros H. unfold MapImpl.emplace_back. rewrite lookup_modify.
  rewrite !lookup_subscript by exact H. rewrite String.eqb_refl.
  now destruct (String.eqb k k').
Qed.

Lemma emplace_back_safe (k : string) (e : MapImpl.kv) (m : MapImpl.umap) :
  one_line k -> pair_safe e -> map_safe m -> map_safe (MapImpl.emplace_back U k e m).
Proof.
  intros Hk He Hm. unfold MapImpl.emplace_back.
  apply modify_safe; [| now apply subscript_safe].
  intros es Hes. apply Forall_app. split; [exact Hes | now constructor].
Qed.

Lemma assign_nodup (k : string) (v : list MapImpl.kv) (m : MapImpl.umap) :
  NoDup (keys m) -> NoDup (keys (MapImpl.assign U k v m)).
Proof.
  intros H. unfold MapImpl.assign. rewrite keys_modify.
  now apply subscript_nodup.
Qed.

Lemma lookup_assign (k k' : string) (v : list MapImpl.kv) (m : MapImpl.umap) :
  NoDup (keys m) ->
  MapImpl.lookup k' (MapImpl.assign U k v m) =
  if String.eqb k k' then Some v else MapImpl.lookup k' m.
Proof.
  intros H. unfold MapImpl.assign. rewrite lookup_modify.
  rewrite !lookup_subscript by exact H. rewrite String.eqb_refl.
  now destruct (String.eqb k k').
Qed.

Lemma assign_safe (k : string) (v : list MapImpl.kv) (m : MapImpl.umap) :
  one_line k -> Forall pair_safe v -> map_safe m -> map_safe (MapImpl.assign U k v m).
Proof.
  intros Hk Hv Hm. unfold MapImpl.assign.
  apply modify_safe; [| now apply subscript_safe]. intros _ _. exact Hv.
Qed.

End MapFacts.

(** ** The map implementation: reading back what was written *)

Lemma getlines_map_entries (es : list MapImpl.kv) (rest : string) :
  Forall pair_safe es ->
  getlines (MapImpl.write_entries es +++ rest) = map pair_line es ++ getlines rest.
Proof.
  induction 1 as [|[k v] es He _ IH]; [reflexivity |].
  destruct He as [He _]. cbn [fst snd] in He.
  cbn [MapImpl.write_entries map app].
  replace ((k +++ "=" +++ v +++ nl +++ MapImpl.write_entries es) +++ rest)
    with (kv_line k v +++ nl +++ (MapImpl.write_entries es +++ rest))
    by (unfold kv_line; now rewrite !append_assoc).
  rewrite getlines_line by exact He. now rewrite IH.
Qed.

Lemma getlines_map (m : MapImpl.umap) :
  map_safe m -> getlines (MapImpl.write_map m) = flat_map node_lines m.
Proof.
  induction 1 as [|[n es] m Hs _ IH]; [reflexivity |].
  destruct Hs as [Hn Hes]. cbn [fst snd] in Hn, Hes.
  cbn [MapImpl.write_map flat_map].
  replace ("[" +++ n +++ "]" +++ nl +++
           MapImpl.write_entries es +++ nl +++ MapImpl.write_map m)
    with (header_line n +++ nl +++
          (MapImpl.write_entries es +++ (EmptyString +++ nl +++ MapImpl.write_map m)))
    by (unfold header_line; now rewrite !append_assoc).
  rewrite getlines_line by now apply one_line_header_line.
  rewrite getlines_map_entries by exact Hes.
  rewrite getlines_line by reflexivity.
  rewrite IH. unfold node_lines. cbn [fst snd app]. now rewrite <- app_assoc.
Qed.

Section MapReading.

Variable U : MapImpl.unordered_map_impl.

Lemma map_line_empty (st : MapImpl.umap * string) :
  MapImpl.readAll_line U st EmptyString = st.
Proof. now destruct st. Qed.

Lemma map_line_header (m : MapImpl.umap) (cur n : string) :
  MapImpl.readAll_line U (m, cur) (header_line n) = (m, n).
Proof.
  unfold MapImpl.readAll_line.
  now rewrite empty_header_line, is_header_header_line, substr_header_line.
Qed.

Lemma map_line_entry (m : MapImpl.umap) (cur line k v : string) :
  split_line line = Some (k, v) ->
  MapImpl.readAll_line U (m, cur) line = (MapImpl.emplace_back U cur (k, v) m, cur).
Proof.
  unfold split_line, MapImpl.readAll_line.
  destruct (empty line); [discriminate |].
  destruct (is_header line); [discriminate |].
  destruct (find "="%char line) as [pos|]; [| discriminate].
  intros H. now inversion H.
Qed.

Lemma map_line_inv (st : MapImpl.umap * string) (line : string) :
  one_line line -> reading_inv st -> reading_inv (MapImpl.readAll_line U st line).
Proof.
  destruct st as [m cur]. intros Hl (Hnd & Hs & Hc). cbn [fst snd] in *.
  unfold MapImpl.readAll_line.
  destruct (empty line) eqn:He; [now repeat split |].
  destruct (is_header line) eqn:Hh.
  - repeat split; cbn [fst snd]; auto. now apply header_name_one_line.
  - destruct (find "="%char line) as [pos|] eqn:Hf; [| now repeat split].
    repeat split; cbn [fst snd]; auto.
    + now apply emplace_back_nodup.
    + apply emplace_back_safe; auto.
      apply (split_line_safe line); [exact Hl |].
      unfold split_line. now rewrite He, Hh, Hf.
Qed.

Lemma map_lines_inv (lines : list string) :
  Forall one_line lines ->
  forall st, reading_inv st -> reading_inv (fold_left (MapImpl.readAll_line U) lines st).
Proof.
  induction 1 as [|l lines Hl _ IH]; intros st Hs; [exact Hs |].
  cbn [fold_left]. apply IH. now apply map_line_inv.
Qed.

Lemma map_readAll_inv (bytes : string) :
  NoDup (keys (MapImpl.readAll_lines U (getlines bytes))) /\
  map_safe (MapImpl.readAll_lines U (getlines bytes)).
Proof.
  destruct (map_lines_inv (getlines bytes) (getlines_one_line bytes) ([], EmptyString))
    as (H1 & H2 & _).
  - repeat split; constructor.
  - now split.
Qed.

(** The pairs of one written section go, in order, behind the pairs the
    map already has under the section's name. *)
Lemma map_read_pairs (es : list MapImpl.kv) :
  Forall pair_safe es ->
  forall (m : MapImpl.umap) (n : string) (more : list string),
    NoDup (keys m) ->
    exists m',
      fold_left (MapImpl.readAll_line U) (map pair_line es ++ more) (m, n)
      = fold_left (MapImpl.readAll_line U) more (m', n) /\
      NoDup (keys m') /\
      forall k, MapImpl.lookup k m' =
                if String.eqb n k then merged (MapImpl.lookup n m) (Some es)
                else MapImpl.lookup k m.
Proof.
  induction 1 as [|[k0 v0] es He _ IH]; intros m n more Hnd.
  - exists m. repeat split; auto. intros k. cbn [merged].
    destruct (String.eqb_spec n k) as [E|E]; [now subst k | reflexivity].
  - cbn [map app fold_left]. destruct He as [_ He]. cbn [fst snd] in He.
    unfold pair_line at 1. cbn [fst snd]. rewrite (map_line_entry _ _ _ _ _ He).
    destruct (IH (MapImpl.emplace_back U n (k0, v0) m) n more) as (m' & Hm' & Hnd' & Hl).
    { now apply emplace_back_nodup. }
    exists m'. repeat split; auto. intros k. rewrite Hl.
    rewrite !lookup_emplace_back by exact Hnd. rewrite String.eqb_refl.
    destruct (String.eqb n k); [| reflexivity].
    unfold merged, at_key.
    destruct es as [|e es]; destruct (MapImpl.lookup n m); cbn [app];
      try reflexivity; now rewrite <- app_assoc.
Qed.

Lemma map_read_nodes (nodes : MapImpl.umap) :
  map_safe nodes -> NoDup (keys nodes) ->
  forall (m : MapImpl.umap) (cur : string),
    NoDup (keys m) ->
    let r := fst (fold_left (MapImpl.readAll_line U) (flat_map node_lines nodes) (m, cur)) in
    NoDup (keys r) /\
    forall k, MapImpl.lookup k r = merged (MapImpl.lookup k m) (MapImpl.lookup k nodes).
Proof.
  induction 1 as [|[n es] nodes Hs _ IH]; intros Hk m cur Hnd r.
  - split; [exact Hnd | reflexivity].
  - destruct Hs as [_ Hes]. cbn [fst snd] in Hes.
    cbn [keys map fst] in Hk. inversion Hk as [|? ? Hn Hk']; subst.
    destruct (map_read_pairs es Hes m n ([EmptyString] ++ flat_map node_lines nodes) Hnd)
      as (m' & Hm' & Hnd' & Hl).
    assert (E : fold_left (MapImpl.readAll_line U)
                  (flat_map node_lines ((n, es) :: nodes)) (m, cur)
                = fold_left (MapImpl.readAll_line U) (flat_map node_lines nodes) (m', n)).
    { cbn [flat_map]. unfold node_lines at 1.
      cbn [fst snd app fold_left]. rewrite map_line_header. rewrite <- app_assoc.
      rewrite Hm'. cbn [app fold_left]. now rewrite map_line_empty. }
    subst r. rewrite E.
    destruct (IH Hk' m' n Hnd') as [H1 H2]. split; [exact H1 |].
    intros k. rewrite H2, Hl. cbn [MapImpl.lookup].
    destruct (String.eqb_spec n k) as [E'|E']; [| reflexivity].
    subst k. apply lookup_None in Hn. now rewrite Hn.
Qed.

(** Reading the bytes written for a map gives, under every key, what the
    map held, except that a section without entries is gone. *)
Lemma map_read_written (m : MapImpl.umap) :
  map_safe m -> NoDup (keys m) ->
  NoDup (keys (MapImpl.readAll_lines U (getlines (MapImpl.write_map m)))) /\
  forall k, MapImpl.lookup k (MapImpl.readAll_lines U (getlines (MapImpl.write_map m)))
            = merged None (MapImpl.lookup k m).
Proof.
  intros Hs Hnd. unfold MapImpl.readAll_lines. rewrite getlines_map by exact Hs.
  apply (map_read_nodes m Hs Hnd [] EmptyString). constructor.
Qed.

End MapReading.

(** ** The map implementation: the public operations, unfolded *)

Section MapOperations.

Variable U : MapImpl.unordered_map_impl.

Lemma map_readAll_eq (d : Disk) (outData : MapImpl.umap) :
  MapImpl.readAll U d outData =
  match open_in d with
  | None => (false, outData)
  | Some bytes => (true, MapImpl.readAll_lines U (getlines bytes))
  end.
Proof. reflexivity. Qed.

(** Whatever [readAll] leaves in a map that was empty has no key twice and
    can be written and read back. *)
Lemma map_readAll_good (d : Disk) :
  NoDup (keys (snd (MapImpl.readAll U d []))) /\
  map_safe (snd (MapImpl.readAll U d [])).
Proof.
  rewrite map_readAll_eq. destruct (open_in d) as [bytes|]; cbn [snd].
  - apply map_readAll_inv.
  - split; constructor.
Qed.

Lemma map_readSection_eq (d : Disk) (bytes : string) (section : string)
      (out : list MapImpl.kv) :
  open_in d = Some bytes ->
  MapImpl.readSection U d section out =
  match MapImpl.lookup section (MapImpl.readAll_lines U (getlines bytes)) with
  | Some es => (true, es)
  | None => (false, [])
  end.
Proof.
  intros Hin. unfold MapImpl.readSection. rewrite map_readAll_eq, Hin.
  rewrite count_lookup.
  destruct (MapImpl.lookup section (MapImpl.readAll_lines U (getlines bytes))) as [es|] eqn:E;
    [| reflexivity].
  rewrite subscript_present by congruence. now rewrite E.
Qed.

Lemma map_readValue_eq (d : Disk) (bytes : string) (section key : string) :
  open_in d = Some bytes ->
  MapImpl.readValue U d section key =
  match MapImpl.lookup section (MapImpl.readAll_lines U (getlines bytes)) with
  | Some es => MapImpl.first_value key es
  | None => EmptyString
  end.
Proof.
  intros Hin. unfold MapImpl.readValue. rewrite map_readAll_eq, Hin.
  rewrite count_lookup.
  destruct (MapImpl.lookup section (MapImpl.readAll_lines U (getlines bytes))) as [es|] eqn:E;
    [| reflexivity].
  rewrite subscript_present by congruence. now rewrite E.
Qed.

Lemma map_writeSection_eq (d : Disk) (section : string) (entries : list MapImpl.kv) :
  MapImpl.writeSection U d section entries =
  match open_out d (MapImpl.write_map
                      (MapImpl.assign U section entries (snd (MapImpl.readAll U d []))))
  with
  | None => (false, d)
  | Some d' => (true, d')
  end.
Proof.
  unfold MapImpl.writeSection. now destruct (MapImpl.readAll U d []).
Qed.

(** A section written with at least one entry is read back as written. *)
Lemma map_write_read (d d' : Disk) (section : string) (e : MapImpl.kv)
      (es out : list MapImpl.kv) :
  one_line section -> Forall pair_safe (e :: es) ->
  MapImpl.writeSection U d section (e :: es) = (true, d') ->
  may_read d' = true ->
  MapImpl.readSection U d' section out = (true, e :: es).
Proof.
  intros Hn Hes Hw Hr. rewrite map_writeSection_eq in Hw.
  destruct (map_readAll_good d) as [Hnd Hs].
  set (m := snd (MapImpl.readAll U d [])) in *.
  destruct (open_out d (MapImpl.write_map (MapImpl.assign U section (e :: es) m)))
    as [d1|] eqn:Ho; [| discriminate].
  inversion Hw; subst d1. apply open_out_Some in Ho. destruct Ho as [_ Hd'].
  rewrite (map_readSection_eq d' (MapImpl.write_map (MapImpl.assign U section (e :: es) m))).
  - destruct (map_read_written U (MapImpl.assign U section (e :: es) m)) as [_ Hl].
    + now apply assign_safe.
    + now apply assign_nodup.
    + rewrite Hl, lookup_assign by exact Hnd. now rewrite String.eqb_refl.
  - unfold open_in. rewrite Hr. now rewrite Hd'.
Qed.

End MapOperations.

Lemma pair_safe_A1 : pair_safe ("A", "1").
Proof. split; reflexivity. Qed.

Lemma pair_safe_B2 : pair_safe ("B", "2").
Proof. split; reflexivity. Qed.

(** C1, as stated, fails on a file that can be opened for writing but not
    for reading: [writeSection] succeeds, because it ignores the result of
    its [readAll], and the [readSection] that follows returns [false]. *)
Lemma C1_counterexample :
  MapImpl.writeSection MapImpl.back_inserting
    (mkDisk (Some EmptyString) false true) "S" [("A", "1"); ("B", "2")]
  = (true, mkDisk (Some ("[S]" +++ nl +++ "A=1" +++ nl +++ "B=2" +++ nl +++ nl)) false true)
  /\
  MapImpl.readSection MapImpl.back_inserting
    (mkDisk (Some ("[S]" +++ nl +++ "A=1" +++ nl +++ "B=2" +++ nl +++ nl)) false true)
    "S" []
  = (false, []).
Proof. split; reflexivity. Qed.

(** C1 (amended): Round trip in the map implementation: after a successful
    [writeSection("S", [("A","1"),("B","2")])], a [readSection("S", out)] on
    the file that was written returns [true] with [out] holding exactly
    [("A","1"),("B","2")], in this order, when that file can be opened for
    reading, and returns [false] with [out] as the caller passed it when it
    cannot; this holds for every file the handler started from, whatever
    [out] held, and for every iteration order of [std::unordered_map]. *)
Theorem C1_write_section_read_back
        (U : MapImpl.unordered_map_impl) (d d' : Disk) (out : list MapImpl.kv) :
  MapImpl.writeSection U d "S" [("A", "1"); ("B", "2")] = (true, d') ->
  (may_read d' = true ->
   MapImpl.readSection U d' "S" out = (true, [("A", "1"); ("B", "2")])) /\
  (may_read d' = false ->
   MapImpl.readSection U d' "S" out = (false, out)).
Proof.
  intros Hw. split; intros Hr.
  - apply (map_write_read U d d'); auto.
    + reflexivity.
    + constructor; [apply pair_safe_A1 |].
      constructor; [apply pair_safe_B2 | constructor].
  - unfold MapImpl.readSection. rewrite map_readAll_eq. unfold open_in. now rewrite Hr.
Qed.

Lemma C1_write_section_read_back_witness :
  MapImpl.readSection MapImpl.front_inserting
    (mkDisk (Some ("[S]" +++ nl +++ "A=1" +++ nl +++ "B=2" +++ nl +++ nl +++
                   "[T]" +++ nl +++ "x=y" +++ nl +++ nl)) true true)
    "S" [("stale", "pair")]
  = (true, [("A", "1"); ("B", "2")]).
Proof.
  apply (proj1 (C1_write_section_read_back MapImpl.front_inserting
                  (mkDisk (Some ("[T]" +++ nl +++ "x=y" +++ nl)) true true)
                  _ [("stale", "pair")] eq_refl)).
  reflexivity.
Defined.

(** ** Searching *)

Lemma first_value_absent (key : string) (es : list MapImpl.kv) :
  ~ In key (map fst es) -> MapImpl.first_value key es = EmptyString.
Proof.
  induction es as [|[k v] es IH]; [reflexivity |].
  cbn [map fst In MapImpl.first_value]. intros H.
  destruct (String.eqb_spec k key) as [E|E]; [tauto |]. apply IH. tauto.
Qed.

Lemma first_value_first (key v : string) (pre post : list MapImpl.kv) :
  ~ In key (map fst pre) -> MapImpl.first_value key (pre ++ (key, v) :: post) = v.
Proof.
  induction pre as [|[k0 v0] pre IH]; cbn [map fst In app MapImpl.first_value]; intros H.
  - now rewrite String.eqb_refl.
  - destruct (String.eqb_spec k0 key) as [E|E]; [tauto |]. apply IH. tauto.
Qed.

Lemma entry_value_absent (n : string) (es : list VecImpl.iniEntry) :
  Forall (fun e => VecImpl.name e <> n) es -> VecImpl.entry_value n es = EmptyString.
Proof.
  induction 1 as [|e es He _ IH]; [reflexivity |].
  cbn [VecImpl.entry_value]. now destruct (String.eqb_spec (VecImpl.name e) n).
Qed.

Lemma entry_value_first (n : string) (e : VecImpl.iniEntry) (pre post : list VecImpl.iniEntry) :
  Forall (fun x => VecImpl.name x <> n) pre -> VecImpl.name e = n ->
  VecImpl.entry_value n (pre ++ e :: post) = VecImpl.value e.
Proof.
  intros Hpre He. induction Hpre as [|x pre Hx _ IH]; cbn [app VecImpl.entry_value].
  - now rewrite He, String.eqb_refl.
  - now destruct (String.eqb_spec (VecImpl.name x) n).
Qed.

Lemma section_entry_value_absent (section n : string) (secs : list VecImpl.iniSection) :
  Forall (fun s => VecImpl.section_name s <> section) secs ->
  VecImpl.section_entry_value section n secs = EmptyString.
Proof.
  induction 1 as [|s secs Hs _ IH]; [reflexivity |].
  cbn [VecImpl.section_entry_value].
  now destruct (String.eqb_spec (VecImpl.section_name s) section).
Qed.

Lemma section_entry_value_first (section n : string) (s : VecImpl.iniSection)
      (pre post : list VecImpl.iniSection) :
  Forall (fun x => VecImpl.section_name x <> section) pre ->
  VecImpl.section_name s = section ->
  VecImpl.section_entry_value section n (pre ++ s :: post)
  = VecImpl.entry_value n (VecImpl.entries s).
Proof.
  intros Hpre Hs. induction Hpre as [|x pre Hx _ IH]; cbn [app VecImpl.section_entry_value].
  - now rewrite Hs, String.eqb_refl.
  - now destruct (String.eqb_spec (VecImpl.section_name x) section).
Qed.

(** ** The header test *)

Lemma bracketed_is_header (line : string) :
  front line = Some "["%char -> back line = Some "]"%char -> is_header line = true.
Proof.
  unfold is_header. intros Hf Hb. now rewrite Hf, Hb.
Qed.

Lemma is_header_not_empty (line : string) : is_header line = true -> empty line = false.
Proof. now destruct line. Qed.

(** C9: A line whose first character is ['['] and whose last character is
    [']'] is a section header for the loop of [readAll], in both
    implementations, whatever else it holds (a ['='] included): the name is
    the text between the brackets, the vector implementation appends a new
    section with that name and makes it the current one, the map
    implementation makes the name the current section name, and no entry
    is stored. *)
Theorem C9_header_test_comes_first (line : string) :
  front line = Some "["%char -> back line = Some "]"%char ->
  line = header_line (substr 1 (String.length line - 2) line) /\
  (forall (secs : list VecImpl.iniSection) (currentSection : option nat),
      VecImpl.readAll_line (secs, currentSection) line
      = (secs ++ [VecImpl.mkSection (substr 1 (String.length line - 2) line) []],
         Some (List.length secs))) /\
  (forall (U : MapImpl.unordered_map_impl) (outData : MapImpl.umap) (currentSection : string),
      MapImpl.readAll_line U (outData, currentSection) line
      = (outData, substr 1 (String.length line - 2) line)).
Proof.
  intros Hf Hb. pose proof (bracketed_is_header line Hf Hb) as Hh.
  pose proof (is_header_not_empty line Hh) as He.
  split; [now apply is_header_shape |]. split.
  - intros secs cur. unfold VecImpl.readAll_line. now rewrite He, Hh.
  - intros U m cur. unfold MapImpl.readAll_line. now rewrite He, Hh.
Qed.

Lemma C9_header_test_comes_first_witness :
  find "="%char "[a=b]" = Some 2 /\
  VecImpl.readAll_line ([VecImpl.mkSection "S" []], Some 0) "[a=b]"
  = ([VecImpl.mkSection "S" []; VecImpl.mkSection "a=b" []], Some 1) /\
  MapImpl.readAll_line MapImpl.front_inserting ([], "S") "[a=b]" = ([], "a=b").
Proof.
  destruct (C9_header_test_comes_first "[a=b]" eq_refl eq_refl) as (_ & Hv & Hm).
  split; [reflexivity |]. split.
  - exact (Hv [VecImpl.mkSection "S" []] (Some 0)).
  - exact (Hm MapImpl.front_inserting [] "S").
Defined.

(** ** When [writeSection] fails *)

(** C3, as stated, fails on the vector implementation: on a file that can be
    opened for writing but not for reading, [writeSection] returns [false]. *)
Lemma C3_counterexample :
  may_write (mkDisk (Some EmptyString) false true) = true /\
  VecImpl.writeSection (mkDisk (Some EmptyString) false true) (VecImpl.mkFile [])
                       (VecImpl.mkSection "S" [VecImpl.mkEntry "A" "1"])
  = (false, VecImpl.mkFile [], mkDisk (Some EmptyString) false true).
Proof. split; reflexivity. Qed.

(** C3 (amended): [writeSection] of the map implementation returns [false]
    exactly when the file cannot be opened for writing: the result of the
    preliminary [readAll] is ignored.  [writeSection] of the vector
    implementation returns [false] exactly when the file cannot be opened
    for reading (the preliminary [readAll] fails) or cannot be opened for
    writing. *)
Theorem C3_write_section_fails_when :
  (forall (U : MapImpl.unordered_map_impl) (d : Disk) (section : string)
          (entries : list MapImpl.kv),
      fst (MapImpl.writeSection U d section entries) = false <-> may_write d = false)
  /\
  (forall (d : Disk) (file : VecImpl.iniFile) (section : VecImpl.iniSection),
      fst (fst (VecImpl.writeSection d file section)) = false
      <-> (open_in d = None \/ may_write d = false)).
Proof.
  split.
  - intros U d section entries. rewrite map_writeSection_eq. unfold open_out.
    destruct (may_write d); cbn [fst]; split; congruence.
  - intros d file section. rewrite vec_writeSection_eq.
    destruct (open_in d) as [bytes|]; cbn [fst].
    + unfold open_out. destruct (may_write d); cbn [fst].
      * split; [discriminate | intros [H|H]; discriminate].
      * split; auto.
    + split; auto.
Qed.

Lemma C3_write_section_fails_when_witness :
  fst (MapImpl.writeSection MapImpl.front_inserting (mkDisk (Some EmptyString) true false)
                            "S" [("A", "1")]) = false
  /\
  fst (fst (VecImpl.writeSection (mkDisk None true true) (VecImpl.mkFile [])
                                 (VecImpl.mkSection "S" []))) = false.
Proof.
  split.
  - apply (proj1 C3_write_section_fails_when). reflexivity.
  - apply (proj2 C3_write_section_fails_when). left. reflexivity.
Defined.

(** ** Writing one value *)

Lemma put_value_cons (key val k v : string) (r : list MapImpl.kv) :
  MapImpl.put_value key val ((k, v) :: r) =
  if String.eqb k key then (k, val) :: r else (k, v) :: MapImpl.put_value key val r.
Proof.
  unfold MapImpl.put_value. cbn [MapImpl.set_value].
  destruct (String.eqb k key); [reflexivity |].
  now destruct (MapImpl.set_value key val r) as [r' [|]].
Qed.

Lemma put_value_nil (key val : string) : MapImpl.put_value key val [] = [(key, val)].
Proof. reflexivity. Qed.

Lemma put_value_not_nil (key val : string) (es : list MapImpl.kv) :
  MapImpl.put_value key val es <> [].
Proof.
  destruct es as [|[k v] r]; [discriminate |].
  rewrite put_value_cons. destruct (String.eqb k key); discriminate.
Qed.

Lemma put_value_safe (key val : string) (es : list MapImpl.kv) :
  pair_safe (key, val) -> Forall pair_safe es -> Forall pair_safe (MapImpl.put_value key val es).
Proof.
  intros He. induction 1 as [|[k v] r Hx Hr IH].
  - rewrite put_value_nil. now constructor.
  - rewrite put_value_cons. destruct (String.eqb_spec k key) as [E|E].
    + constructor; [| exact Hr]. now subst k.
    + now constructor.
Qed.

(** The one pair with the key gets the new value, and stays the only one. *)
Lemma put_value_with (key old new : string) (es : list MapImpl.kv) :
  pairs_with key es = [(key, old)] ->
  pairs_with key (MapImpl.put_value key new es) = [(key, new)].
Proof.
  unfold pairs_with. induction es as [|[k v] r IH]; [discriminate |].
  rewrite put_value_cons. cbn [filter fst].
  destruct (String.eqb k key) eqn:E.
  - intros H. injection H as Hk Hv Hr.
    cbn [filter fst]. rewrite E, Hr. now subst k.
  - intros H. cbn [filter fst]. rewrite E. now apply IH.
Qed.

Lemma map_safe_lookup (k : string) (es : list MapImpl.kv) (m : MapImpl.umap) :
  map_safe m -> MapImpl.lookup k m = Some es -> Forall pair_safe es.
Proof.
  intros Hs Hl. apply lookup_Some_In in Hl.
  unfold map_safe in Hs. rewrite Forall_forall in Hs.
  now destruct (Hs _ Hl).
Qed.

Lemma map_writeSection_ok (U : MapImpl.unordered_map_impl) (d d' : Disk)
      (section : string) (entries : list MapImpl.kv) :
  MapImpl.writeSection U d section entries = (true, d') ->
  may_read d' = may_read d /\ may_write d' = may_write d /\
  content d' = Some (MapImpl.write_map
                       (MapImpl.assign U section entries (snd (MapImpl.readAll U d [])))).
Proof.
  rewrite map_writeSection_eq.
  destruct (open_out d _) as [d1|] eqn:Ho; [| discriminate].
  intros H. injection H as H. subst d1.
  apply open_out_Some in Ho. destruct Ho as [_ Ho]. now rewrite Ho.
Qed.

(** The first section with the name, by its index. *)
Lemma find_section_first (n : string) (s : VecImpl.iniSection)
      (secs : list VecImpl.iniSection) :
  first_section n secs = Some s ->
  exists i, VecImpl.find_section n secs = Some i /\
            forall f, (forall x, VecImpl.section_name (f x) = VecImpl.section_name x) ->
                      first_section n (modify_at f i secs) = Some (f s).
Proof.
  unfold first_section. induction secs as [|x secs IH]; [discriminate |].
  cbn [List.find VecImpl.find_section].
  destruct (String.eqb (VecImpl.section_name x) n) eqn:E.
  - intros H. injection H as H. subst x. exists 0. split; [reflexivity |].
    intros f Hf. cbn [modify_at List.find]. now rewrite Hf, E.
  - intros H. destruct (IH H) as (i & Hi & Hm). exists (S i). split.
    + now rewrite Hi.
    + intros f Hf. cbn [modify_at List.find]. rewrite E. now apply Hm.
Qed.

Lemma first_section_after_entry (n : string) (e : VecImpl.iniEntry)
      (s : VecImpl.iniSection) (secs : list VecImpl.iniSection) :
  first_section n secs = Some s ->
  first_section n (sections_after_entry n e secs) = Some (VecImpl.put_entry e s).
Proof.
  intros H. destruct (find_section_first n s secs H) as (i & Hi & Hm).
  unfold sections_after_entry, VecImpl.target_section. rewrite Hi.
  now apply Hm.
Qed.

Lemma first_section_split (n : string) (s : VecImpl.iniSection)
      (secs : list VecImpl.iniSection) :
  first_section n secs = Some s ->
  exists pre post,
    secs = pre ++ s :: post /\
    Forall (fun x => VecImpl.section_name x <> n) pre /\
    VecImpl.section_name s = n.
Proof.
  unfold first_section. induction secs as [|x secs IH]; [discriminate |].
  cbn [List.find]. destruct (String.eqb_spec (VecImpl.section_name x) n) as [E|E].
  - intros H. injection H as H. subst x. exists [], secs. repeat split; auto.
  - intros H. destruct (IH H) as (pre & post & H1 & H2 & H3).
    exists (x :: pre), post. subst secs. repeat split; auto.
Qed.

Lemma entry_value_named (k v : string) (es : list VecImpl.iniEntry) :
  entries_named k es = [VecImpl.mkEntry k v] -> VecImpl.entry_value k es = v.
Proof.
  unfold entries_named. induction es as [|x r IH]; [discriminate |].
  cbn [filter VecImpl.entry_value].
  destruct (String.eqb (VecImpl.name x) k).
  - intros H. injection H as H _. now subst x.
  - exact IH.
Qed.

Lemma entry_safe_K_new : entry_safe (VecImpl.mkEntry "K" "new").
Proof. split; reflexivity. Qed.

Lemma entry_safe_K_V : entry_safe (VecImpl.mkEntry "K" "V").
Proof. split; reflexivity. Qed.

(** What a successful [writeEntry] leaves on disk, and what is read from it. *)
Lemma vec_writeEntry_ok (d d1 : Disk) (file file1 : VecImpl.iniFile) (section : string)
      (entry : VecImpl.iniEntry) :
  one_line section -> entry_safe entry ->
  VecImpl.writeEntry d file section entry = (true, file1, d1) ->
  exists bytes,
    open_in d = Some bytes /\
    let secs := sections_after_entry section entry (VecImpl.readAll_lines (getlines bytes)) in
    file1 = VecImpl.mkFile secs /\
    d1 = {| content := Some (VecImpl.write_sections secs);
            may_read := may_read d; may_write := may_write d |} /\
    open_in d1 = Some (VecImpl.write_sections secs) /\
    VecImpl.readAll_lines (getlines (VecImpl.write_sections secs)) = secs.
Proof.
  intros Hn He. rewrite vec_writeEntry_eq.
  destruct (open_in d) as [bytes|] eqn:Hin; [| discriminate].
  cbv zeta. destruct (open_out d _) as [d'|] eqn:Ho; [| discriminate].
  intros H. injection H as H1 H2. subst d'. exists bytes. split; [reflexivity |].
  apply open_out_Some in Ho. destruct Ho as [_ Ho].
  apply open_in_Some in Hin. destruct Hin as [Hr _].
  repeat split; auto.
  - rewrite Ho. unfold open_in. cbn [may_read content]. now rewrite Hr.
  - apply vec_read_written. apply sections_after_entry_safe; auto.
    apply vec_readAll_safe.
Qed.

Lemma vec_writeEntry_str_writeEntry (d : Disk) (file : VecImpl.iniFile)
      (section key val : string) :
  VecImpl.writeEntry_str d file section key val
  = VecImpl.writeEntry d file section (VecImpl.mkEntry key val).
Proof. now rewrite vec_writeEntry_str_eq, vec_writeEntry_eq. Qed.

Lemma vec_writeValue_writeEntry (d : Disk) (file : VecImpl.iniFile)
      (section key val : string) :
  VecImpl.writeValue d file section key val
  = VecImpl.writeEntry d file section (VecImpl.mkEntry key val).
Proof. reflexivity. Qed.

Lemma vec_readValue_readEntry (d : Disk) (file : VecImpl.iniFile)
      (section key val : string) :
  VecImpl.readValue d file section key
  = VecImpl.readEntry d file section (VecImpl.mkEntry key val).
Proof. reflexivity. Qed.

Lemma one_line_S : one_line "S".
Proof. reflexivity. Qed.

Lemma pair_safe_K_new : pair_safe ("K", "new").
Proof. split; reflexivity. Qed.

(** Update in place, on what [readAll] yields.  Map implementation: when
    the file can be read and what the map holds under ["S"] has exactly one
    pair with key ["K"], a successful [writeValue("S","K","new")] leaves a
    file from which [readSection("S")] returns entries with exactly one pair
    with key ["K"], and its value is ["new"].  Vector implementation: the
    same for the first section named ["S"] and [writeEntry],
    [writeEntry_str] or [writeValue]. *)
Lemma write_value_updates_parsed :
  (forall (U : MapImpl.unordered_map_impl) (d d1 : Disk) (m : MapImpl.umap)
          (es out : list MapImpl.kv) (old : string),
      MapImpl.readAll U d [] = (true, m) ->
      In ("S", es) m ->
      pairs_with "K" es = [("K", old)] ->
      MapImpl.writeValue U d "S" "K" "new" = (true, d1) ->
      exists es',
        MapImpl.readSection U d1 "S" out = (true, es') /\
        pairs_with "K" es' = [("K", "new")])
  /\
  (forall (d d1 : Disk) (file file0 file1 file' : VecImpl.iniFile)
          (s : VecImpl.iniSection) (old : string),
      VecImpl.readAll d file = (true, file0) ->
      first_section "S" (VecImpl.sections file0) = Some s ->
      entries_named "K" (VecImpl.entries s) = [VecImpl.mkEntry "K" old] ->
      VecImpl.writeEntry d file "S" (VecImpl.mkEntry "K" "new") = (true, file1, d1)
      \/ VecImpl.writeEntry_str d file "S" "K" "new" = (true, file1, d1)
      \/ VecImpl.writeValue d file "S" "K" "new" = (true, file1, d1) ->
      exists file2 s',
        VecImpl.readAll d1 file' = (true, file2) /\
        first_section "S" (VecImpl.sections file2) = Some s' /\
        entries_named "K" (VecImpl.entries s') = [VecImpl.mkEntry "K" "new"] /\
        fst (VecImpl.readEntry d1 file' "S" (VecImpl.mkEntry "K" EmptyString)) = "new").
Proof.
  split.
  - intros U d d1 m es out old Hr Hin Hk Hw.
    rewrite map_readAll_eq in Hr.
    destruct (open_in d) as [bytes|] eqn:Hopen; [| discriminate].
    injection Hr as Hm. destruct (map_readAll_inv U bytes) as [Hnd Hs].
    rewrite Hm in Hnd, Hs. pose proof (In_lookup _ _ _ Hnd Hin) as Hl.
    unfold MapImpl.writeValue in Hw.
    rewrite (map_readSection_eq U d bytes) in Hw by exact Hopen.
    rewrite Hm, Hl in Hw.
    exists (MapImpl.put_value "K" "new" es). split; [| now apply (put_value_with "K" old)].
    destruct (map_writeSection_ok _ _ _ _ _ Hw) as (Hread & _ & _).
    assert (Hsafe : Forall pair_safe (MapImpl.put_value "K" "new" es)).
    { apply put_value_safe; [apply pair_safe_K_new |]. now apply (map_safe_lookup "S" es m). }
    pose proof (put_value_not_nil "K" "new" es) as Hne.
    destruct (MapImpl.put_value "K" "new" es) as [|e es1]; [congruence |].
    apply (map_write_read U d d1); auto.
    + reflexivity.
    + rewrite Hread. now apply open_in_Some in Hopen.
  - intros d d1 file file0 file1 file' s old Hr Hs Hk Hw.
    assert (Hw' : VecImpl.writeEntry d file "S" (VecImpl.mkEntry "K" "new") = (true, file1, d1)).
    { destruct Hw as [Hw|[Hw|Hw]]; [exact Hw | | exact Hw].
      now rewrite <- vec_writeEntry_str_writeEntry. }
    destruct (vec_writeEntry_ok _ _ _ _ _ _ one_line_S entry_safe_K_new Hw')
      as (bytes & Hopen & _ & _ & Hopen1 & Hback).
    rewrite vec_readAll_eq, Hopen in Hr. injection Hr as Hf0. subst file0.
    cbn [VecImpl.sections] in Hs.
    pose proof (first_section_after_entry "S" (VecImpl.mkEntry "K" "new") s _ Hs) as Hfirst.
    set (secs := sections_after_entry "S" (VecImpl.mkEntry "K" "new")
                   (VecImpl.readAll_lines (getlines bytes))) in *.
    assert (Hnamed : entries_named "K" (VecImpl.entries (VecImpl.put_entry (VecImpl.mkEntry "K" "new") s))
                     = [VecImpl.mkEntry "K" "new"])
      by (cbn [VecImpl.put_entry VecImpl.entries]; now apply (put_entries_named "K" old)).
    exists (VecImpl.mkFile secs), (VecImpl.put_entry (VecImpl.mkEntry "K" "new") s).
    repeat split.
    + now rewrite vec_readAll_eq, Hopen1, Hback.
    + exact Hfirst.
    + exact Hnamed.
    + unfold VecImpl.readEntry. rewrite vec_readAll_eq, Hopen1, Hback.
      cbn [fst VecImpl.sections VecImpl.name].
      destruct (first_section_split _ _ _ Hfirst) as (pre & post & E & Hpre & Hn).
      rewrite E, section_entry_value_first by assumption.
      now apply entry_value_named.
Qed.

(** ** Writing the same value twice *)

(** C8, as stated, fails on the map implementation when the library puts the
    node of a new key at the front of the iteration order: the first
    [writeValue("S","K","V")] on a file that holds section ["A"] writes
    ["S"] before ["A"], the second one reads ["S"] and then ["A"] into a
    fresh map and writes ["A"] before ["S"]. *)
Lemma C8_counterexample :
  MapImpl.writeValue MapImpl.front_inserting
    (mkDisk (Some ("[A]" +++ nl +++ "x=1" +++ nl +++ nl)) true true) "S" "K" "V"
  = (true, mkDisk (Some ("[S]" +++ nl +++ "K=V" +++ nl +++ nl +++
                         "[A]" +++ nl +++ "x=1" +++ nl +++ nl)) true true)
  /\
  MapImpl.writeValue MapImpl.front_inserting
    (mkDisk (Some ("[S]" +++ nl +++ "K=V" +++ nl +++ nl +++
                   "[A]" +++ nl +++ "x=1" +++ nl +++ nl)) true true) "S" "K" "V"
  = (true, mkDisk (Some ("[A]" +++ nl +++ "x=1" +++ nl +++ nl +++
                         "[S]" +++ nl +++ "K=V" +++ nl +++ nl)) true true)
  /\
  "[S]" +++ nl +++ "K=V" +++ nl +++ nl +++ "[A]" +++ nl +++ "x=1" +++ nl +++ nl
  <> "[A]" +++ nl +++ "x=1" +++ nl +++ nl +++ "[S]" +++ nl +++ "K=V" +++ nl +++ nl.
Proof.
  split; [reflexivity |]. split; [reflexivity |]. discriminate.
Qed.

(** C8 (amended): In the vector implementation [writeEntry_str],
    [writeEntry] and [writeValue] are idempotent: when two calls in
    succession with section ["S"], key ["K"] and value ["V"] both succeed,
    the bytes of the file after the second call are the bytes after the
    first, whatever the file held before. *)
Theorem C8_write_entry_twice_same_bytes :
  (forall (d d1 d2 : Disk) (file file1 file' file2 : VecImpl.iniFile),
      VecImpl.writeEntry_str d file "S" "K" "V" = (true, file1, d1) ->
      VecImpl.writeEntry_str d1 file' "S" "K" "V" = (true, file2, d2) ->
      content d2 = content d1)
  /\
  (forall (d d1 d2 : Disk) (file file1 file' file2 : VecImpl.iniFile),
      VecImpl.writeEntry d file "S" (VecImpl.mkEntry "K" "V") = (true, file1, d1) ->
      VecImpl.writeEntry d1 file' "S" (VecImpl.mkEntry "K" "V") = (true, file2, d2) ->
      content d2 = content d1)
  /\
  (forall (d d1 d2 : Disk) (file file1 file' file2 : VecImpl.iniFile),
      VecImpl.writeValue d file "S" "K" "V" = (true, file1, d1) ->
      VecImpl.writeValue d1 file' "S" "K" "V" = (true, file2, d2) ->
      content d2 = content d1).
Proof.
  assert (H : forall (d d1 d2 : Disk) (file file1 file' file2 : VecImpl.iniFile),
             VecImpl.writeEntry d file "S" (VecImpl.mkEntry "K" "V") = (true, file1, d1) ->
             VecImpl.writeEntry d1 file' "S" (VecImpl.mkEntry "K" "V") = (true, file2, d2) ->
             content d2 = content d1).
  { intros d d1 d2 file file1 file' file2 H1 H2.
    destruct (vec_writeEntry_ok _ _ _ _ _ _ one_line_S entry_safe_K_V H1)
      as (bytes & _ & _ & Hd1 & Hopen1 & Hback).
    destruct (vec_writeEntry_ok _ _ _ _ _ _ one_line_S entry_safe_K_V H2)
      as (bytes1 & Hopen1' & _ & Hd2 & _ & _).
    rewrite Hopen1 in Hopen1'. injection Hopen1' as Hb. subst bytes1.
    rewrite Hback, sections_after_entry_idem in Hd2.
    now rewrite Hd1, Hd2. }
  split; [| split; [exact H |]].
  - intros d d1 d2 file file1 file' file2.
    rewrite !vec_writeEntry_str_writeEntry. apply H.
  - intros d d1 d2 file file1 file' file2.
    rewrite !vec_writeValue_writeEntry. apply H.
Qed.

Lemma C8_write_entry_twice_same_bytes_witness :
  content (mkDisk (Some ("[A]" +++ nl +++ "x=1" +++ nl +++ nl +++
                         "[S]" +++ nl +++ "K=V" +++ nl +++ nl)) true true)
  = content (mkDisk (Some ("[A]" +++ nl +++ "x=1" +++ nl +++ nl +++
                           "[S]" +++ nl +++ "K=V" +++ nl +++ nl)) true true).
Proof.
  apply (proj1 C8_write_entry_twice_same_bytes
           (mkDisk (Some ("[A]" +++ nl +++ "x=1" +++ nl)) true true)
           (mkDisk (Some ("[A]" +++ nl +++ "x=1" +++ nl +++ nl +++
                          "[S]" +++ nl +++ "K=V" +++ nl +++ nl)) true true)
           (mkDisk (Some ("[A]" +++ nl +++ "x=1" +++ nl +++ nl +++
                          "[S]" +++ nl +++ "K=V" +++ nl +++ nl)) true true)
           (VecImpl.mkFile [])
           (VecImpl.mkFile [VecImpl.mkSection "A" [VecImpl.mkEntry "x" "1"];
                            VecImpl.mkSection "S" [VecImpl.mkEntry "K" "V"]])
           (VecImpl.mkFile [])
           (VecImpl.mkFile [VecImpl.mkSection "A" [VecImpl.mkEntry "x" "1"];
                            VecImpl.mkSection "S" [VecImpl.mkEntry "K" "V"]])).
  - reflexivity.
  - reflexivity.
Defined.

(** ** The order of the sections *)


Lemma sections_after_section_cons (section x : VecImpl.iniSection)
      (r : list VecImpl.iniSection) :
  sections_after_section section (x :: r) =
  if String.eqb (VecImpl.section_name x) (VecImpl.section_name section)
  then VecImpl.mkSection (VecImpl.section_name x) (VecImpl.entries section) :: r
  else x :: sections_after_section section r.
Proof.
  unfold sections_after_section. cbn [VecImpl.replace_section].
  destruct (String.eqb (VecImpl.section_name x) (VecImpl.section_name section));
    [reflexivity |].
  now destruct (VecImpl.replace_section section r) as [r' [|]].
Qed.

Lemma sections_after_entry_cons (n : string) (e : VecImpl.iniEntry)
      (x : VecImpl.iniSection) (r : list VecImpl.iniSection) :
  sections_after_entry n e (x :: r) =
  if String.eqb (VecImpl.section_name x) n
  then VecImpl.put_entry e x :: r
  else x :: sections_after_entry n e r.
Proof.
  unfold sections_after_entry, VecImpl.target_section. cbn [VecImpl.find_section].
  destruct (String.eqb (VecImpl.section_name x) n); [reflexivity |].
  now destruct (VecImpl.find_section n r).
Qed.






(** ** Lines before the first header *)

Lemma vec_line_no_section (line : string) :
  is_header line = false -> VecImpl.readAll_line ([], None) line = ([], None).
Proof.
  intros H. unfold VecImpl.readAll_line. rewrite H.
  destruct (empty line); [reflexivity |].
  now destruct (find "="%char line).
Qed.

Lemma vec_lines_no_section (pre : list string) :
  Forall (fun l => is_header l = false) pre ->
  fold_left VecImpl.readAll_line pre ([], None) = ([], None).
Proof.
  induction 1 as [|l pre Hl _ IH]; [reflexivity |].
  cbn [fold_left]. now rewrite vec_line_no_section.
Qed.

Lemma split_line_not_header (line k v : string) :
  split_line line = Some (k, v) -> is_header line = false.
Proof.
  unfold split_line. destruct (empty line); [discriminate |].
  now destruct (is_header line).
Qed.

(** The vector implementation reads the same sections with and without a
    line that stands before the first header. *)
Lemma vec_line_before_header (pre rest : list string) (line : string) :
  Forall (fun l => is_header l = false) pre -> is_header line = false ->
  VecImpl.readAll_lines (pre ++ line :: rest) = VecImpl.readAll_lines (pre ++ rest).
Proof.
  intros Hpre Hl. unfold VecImpl.readAll_lines.
  rewrite !fold_left_app, vec_lines_no_section by exact Hpre.
  cbn [fold_left]. now rewrite vec_line_no_section.
Qed.

Section MapBeforeHeader.

Variable U : MapImpl.unordered_map_impl.

Lemma map_line_nodup (st : MapImpl.umap * string) (line : string) :
  NoDup (keys (fst st)) -> NoDup (keys (fst (MapImpl.readAll_line U st line))).
Proof.
  destruct st as [m cur]. cbn [fst]. intros H. unfold MapImpl.readAll_line.
  destruct (empty line); [exact H |].
  destruct (is_header line); [exact H |].
  destruct (find "="%char line); [| exact H].
  cbn [fst]. now apply emplace_back_nodup.
Qed.

Lemma map_lines_nodup (lines : list string) (st : MapImpl.umap * string) :
  NoDup (keys (fst st)) ->
  NoDup (keys (fst (fold_left (MapImpl.readAll_line U) lines st))).
Proof.
  revert st. induction lines as [|l lines IH]; intros st H; [exact H |].
  cbn [fold_left]. apply IH. now apply map_line_nodup.
Qed.

Lemma map_lines_no_header (pre : list string) (st : MapImpl.umap * string) :
  Forall (fun l => is_header l = false) pre ->
  snd (fold_left (MapImpl.readAll_line U) pre st) = snd st.
Proof.
  intros H. revert st. induction H as [|l pre Hl _ IH]; intros st; [reflexivity |].
  cbn [fold_left]. rewrite IH. destruct st as [m cur].
  unfold MapImpl.readAll_line. rewrite Hl.
  destruct (empty l); [reflexivity |].
  now destruct (find "="%char l).
Qed.

(** A pair that is under a name stays under it while more lines are read. *)
Lemma map_line_keeps (n : string) (e : MapImpl.kv) (st : MapImpl.umap * string)
      (line : string) :
  NoDup (keys (fst st)) ->
  In e (at_key n (fst st)) ->
  In e (at_key n (fst (MapImpl.readAll_line U st line))).
Proof.
  destruct st as [m cur]. cbn [fst]. intros Hnd H. unfold MapImpl.readAll_line.
  destruct (empty line); [exact H |].
  destruct (is_header line); [exact H |].
  destruct (find "="%char line) as [pos|]; [| exact H].
  cbn [fst]. unfold at_key at 1. rewrite lookup_emplace_back by exact Hnd.
  destruct (String.eqb_spec cur n) as [E|E].
  - subst cur. apply in_or_app. now left.
  - exact H.
Qed.

Lemma map_lines_keep (n : string) (e : MapImpl.kv) (lines : list string)
      (st : MapImpl.umap * string) :
  NoDup (keys (fst st)) ->
  In e (at_key n (fst st)) ->
  In e (at_key n (fst (fold_left (MapImpl.readAll_line U) lines st))).
Proof.
  revert st. induction lines as [|l lines IH]; intros st Hnd H; [exact H |].
  cbn [fold_left]. apply IH; [now apply map_line_nodup | now apply map_line_keeps].
Qed.

(** The map implementation keeps the pair of a line that stands before the
    first header, under the empty name. *)
Lemma map_line_before_header (pre rest : list string) (line k v : string) :
  Forall (fun l => is_header l = false) pre ->
  split_line line = Some (k, v) ->
  In (k, v) (at_key EmptyString (MapImpl.readAll_lines U (pre ++ line :: rest))).
Proof.
  intros Hpre Hl. unfold MapImpl.readAll_lines. rewrite fold_left_app.
  pose proof (map_lines_no_header pre ([], EmptyString) Hpre) as Hcur.
  pose proof (map_lines_nodup pre ([], EmptyString) (NoDup_nil _)) as Hnd.
  destruct (fold_left (MapImpl.readAll_line U) pre ([], EmptyString)) as [m cur].
  cbn [snd fst] in Hcur, Hnd. subst cur. cbn [fold_left].
  rewrite (map_line_entry U _ _ _ _ _ Hl).
  apply map_lines_keep; cbn [fst].
  - now apply emplace_back_nodup.
  - unfold at_key at 1. rewrite lookup_emplace_back, String.eqb_refl by exact Hnd.
    apply in_or_app. right. now left.
Qed.

End MapBeforeHeader.

(** C4, as stated, fails on the map implementation: the pair of a line that
    stands before every header is stored under the empty section name and
    both [readValue] and [readSection] return it. *)
Lemma C4_counterexample :
  MapImpl.readValue MapImpl.front_inserting
    (mkDisk (Some ("k=v" +++ nl +++ "[S]" +++ nl +++ "a=1" +++ nl)) true true)
    EmptyString "k" = "v"
  /\
  MapImpl.readSection MapImpl.front_inserting
    (mkDisk (Some ("k=v" +++ nl +++ "[S]" +++ nl +++ "a=1" +++ nl)) true true)
    EmptyString [] = (true, [("k", "v")]).
Proof. split; reflexivity. Qed.

(** C4 (amended): In the vector implementation a key=value line that stands
    before every section header line is discarded by [readAll]: the handler
    reads the same sections, and [readSection] and [readEntry] answer the
    same, as on the file without that line.  In the map implementation the
    line is not discarded: its pair is stored under the empty section name
    and [readSection] returns it among the entries of that name. *)
Theorem C4_line_before_first_header
        (pre rest : list string) (line k v : string) (d d' : Disk) (bytes bytes' : string) :
  open_in d = Some bytes -> getlines bytes = pre ++ line :: rest ->
  open_in d' = Some bytes' -> getlines bytes' = pre ++ rest ->
  Forall (fun l => is_header l = false) pre ->
  split_line line = Some (k, v) ->
  (forall file,
      VecImpl.readAll d file = VecImpl.readAll d' file /\
      (forall section, VecImpl.readSection d file section = VecImpl.readSection d' file section) /\
      (forall section entry,
          VecImpl.readEntry d file section entry = VecImpl.readEntry d' file section entry))
  /\
  (forall (U : MapImpl.unordered_map_impl) (out : list MapImpl.kv),
      exists es, MapImpl.readSection U d EmptyString out = (true, es) /\ In (k, v) es).
Proof.
  intros Hd Hb Hd' Hb' Hpre Hl. split.
  - intros file.
    assert (E : VecImpl.readAll d file = VecImpl.readAll d' file).
    { rewrite !vec_readAll_eq, Hd, Hd', Hb, Hb'.
      rewrite vec_line_before_header; auto. now apply (split_line_not_header line k v). }
    split; [exact E |]. split.
    + intros section. unfold VecImpl.readSection. now rewrite E.
    + intros section entry. unfold VecImpl.readEntry. now rewrite E.
  - intros U out. rewrite (map_readSection_eq U d bytes) by exact Hd. rewrite Hb.
    pose proof (map_line_before_header U pre rest line k v Hpre Hl) as Hin.
    unfold at_key in Hin.
    destruct (MapImpl.lookup EmptyString (MapImpl.readAll_lines U (pre ++ line :: rest)))
      as [es|]; [| destruct Hin].
    exists es. now split.
Qed.

Lemma C4_line_before_first_header_witness :
  VecImpl.readEntry (mkDisk (Some ("k=v" +++ nl +++ "[S]" +++ nl +++ "a=1" +++ nl)) true true)
                    (VecImpl.mkFile []) EmptyString (VecImpl.mkEntry "k" EmptyString)
  = VecImpl.readEntry (mkDisk (Some ("[S]" +++ nl +++ "a=1" +++ nl)) true true)
                      (VecImpl.mkFile []) EmptyString (VecImpl.mkEntry "k" EmptyString).
Proof.
  apply (proj1 (C4_line_before_first_header [] ["[S]"%string; "a=1"%string] "k=v" "k" "v"
                  (mkDisk (Some ("k=v" +++ nl +++ "[S]" +++ nl +++ "a=1" +++ nl)) true true)
                  (mkDisk (Some ("[S]" +++ nl +++ "a=1" +++ nl)) true true)
                  ("k=v" +++ nl +++ "[S]" +++ nl +++ "a=1" +++ nl)
                  ("[S]" +++ nl +++ "a=1" +++ nl)
                  eq_refl eq_refl eq_refl eq_refl (Forall_nil _) eq_refl)
               (VecImpl.mkFile [])).
Defined.

(** ** Sections with the same name *)

Lemma modify_at_names (f : VecImpl.iniSection -> VecImpl.iniSection) (i : nat)
      (secs : list VecImpl.iniSection) :
  (forall x, VecImpl.section_name (f x) = VecImpl.section_name x) ->
  map VecImpl.section_name (modify_at f i secs) = map VecImpl.section_name secs.
Proof.
  intros Hf. revert i. induction secs as [|x secs IH]; intros i; [reflexivity |].
  destruct i; cbn [modify_at map]; [now rewrite Hf | now rewrite IH].
Qed.

Lemma header_names_cons (l : string) (lines : list string) :
  header_names (l :: lines) =
  (if is_header l then [substr 1 (String.length l - 2) l] else []) ++ header_names lines.
Proof.
  unfold header_names. cbn [filter]. now destruct (is_header l).
Qed.

Lemma vec_line_names (st : list VecImpl.iniSection * option nat) (line : string) :
  map VecImpl.section_name (fst (VecImpl.readAll_line st line)) =
  map VecImpl.section_name (fst st)
  ++ (if is_header line then [substr 1 (String.length line - 2) line] else []).
Proof.
  destruct st as [secs cur]. unfold VecImpl.readAll_line. cbn [fst].
  destruct (empty line) eqn:He.
  - destruct line; [| discriminate]. cbn [fst]. now rewrite app_nil_r.
  - destruct (is_header line).
    + cbn [fst]. now rewrite map_app.
    + rewrite app_nil_r. destruct (find "="%char line); [| reflexivity].
      destruct cur; [| reflexivity]. cbn [fst]. now apply modify_at_names.
Qed.

(** One section per header line, in file order. *)
Lemma vec_lines_names (lines : list string) (st : list VecImpl.iniSection * option nat) :
  map VecImpl.section_name (fst (fold_left VecImpl.readAll_line lines st)) =
  map VecImpl.section_name (fst st) ++ header_names lines.
Proof.
  revert st. induction lines as [|l lines IH]; intros st.
  - cbn [fold_left]. unfold header_names. cbn [filter map]. now rewrite app_nil_r.
  - cbn [fold_left]. rewrite IH, vec_line_names, header_names_cons.
    now rewrite app_assoc.
Qed.

Lemma vec_line_skipped (st : list VecImpl.iniSection * option nat) (line : string) :
  is_header line = false -> split_line line = None ->
  VecImpl.readAll_line st line = st.
Proof.
  destruct st as [secs cur]. unfold split_line, VecImpl.readAll_line. intros Hh.
  rewrite Hh. destruct (empty line); [reflexivity |].
  now destruct (find "="%char line).
Qed.

(** The entries on the lines after a header, up to the next header, go into
    the section of that header. *)
Lemma vec_read_body (body : list string) :
  Forall (fun l => is_header l = false) body ->
  forall (secs : list VecImpl.iniSection) (s : VecImpl.iniSection),
    fold_left VecImpl.readAll_line body (secs ++ [s], Some (List.length secs))
    = (secs ++ [VecImpl.mkSection (VecImpl.section_name s)
                                  (VecImpl.entries s ++ entries_of_lines body)],
       Some (List.length secs)).
Proof.
  induction 1 as [|l body Hl _ IH]; intros secs s.
  - cbn [fold_left entries_of_lines flat_map]. rewrite app_nil_r. now destruct s.
  - cbn [fold_left]. unfold entries_of_lines. cbn [flat_map].
    fold (entries_of_lines body).
    destruct (split_line l) as [[k v]|] eqn:Hs.
    + rewrite (vec_line_entry _ _ _ _ _ Hs), IH.
      unfold VecImpl.push_entry. cbn [VecImpl.section_name VecImpl.entries].
      now rewrite <- app_assoc.
    + rewrite (vec_line_skipped _ _ Hl Hs). apply IH.
Qed.

Lemma section_has_entries_first (n : string) (s : VecImpl.iniSection)
      (pre post : list VecImpl.iniSection) :
  Forall (fun x => VecImpl.section_name x <> n) pre -> VecImpl.section_name s = n ->
  VecImpl.section_has_entries n (pre ++ s :: post)
  = negb (match VecImpl.entries s with [] => true | _ => false end).
Proof.
  intros Hpre Hs. induction Hpre as [|x pre Hx _ IH]; cbn [app VecImpl.section_has_entries].
  - now rewrite Hs, String.eqb_refl.
  - now destruct (String.eqb_spec (VecImpl.section_name x) n).
Qed.

Lemma find_section_first_index (n : string) (s : VecImpl.iniSection)
      (pre post : list VecImpl.iniSection) :
  Forall (fun x => VecImpl.section_name x <> n) pre -> VecImpl.section_name s = n ->
  VecImpl.find_section n (pre ++ s :: post) = Some (List.length pre).
Proof.
  intros Hpre Hs.
  induction Hpre as [|x pre Hx _ IH]; cbn [app VecImpl.find_section List.length].
  - now rewrite Hs, String.eqb_refl.
  - destruct (String.eqb_spec (VecImpl.section_name x) n); [contradiction |].
    now rewrite IH.
Qed.

Lemma replace_section_first (section s : VecImpl.iniSection)
      (pre post : list VecImpl.iniSection) :
  Forall (fun x => VecImpl.section_name x <> VecImpl.section_name section) pre ->
  VecImpl.section_name s = VecImpl.section_name section ->
  VecImpl.replace_section section (pre ++ s :: post)
  = (pre ++ VecImpl.mkSection (VecImpl.section_name s) (VecImpl.entries section) :: post, true).
Proof.
  intros Hpre Hs.
  induction Hpre as [|x pre Hx _ IH]; cbn [app VecImpl.replace_section].
  - now rewrite Hs, String.eqb_refl.
  - destruct (String.eqb_spec (VecImpl.section_name x) (VecImpl.section_name section));
      [contradiction |].
    now rewrite IH.
Qed.

(** C6, as stated, fails on the map implementation: two header lines with
    the same name give one node, and the entries that follow either header
    are merged under it. *)
Lemma C6_counterexample :
  MapImpl.readAll MapImpl.front_inserting
    (mkDisk (Some ("[S]" +++ nl +++ "a=1" +++ nl +++ "[S]" +++ nl +++ "b=2" +++ nl))
            true true) []
  = (true, [("S", [("a", "1"); ("b", "2")])]).
Proof. reflexivity. Qed.

(** C6 (amended): In the vector implementation [readAll] makes one section
    per header line, in file order, also when names repeat: the names of
    [file.sections] are the names on the header lines; the section of a
    header line holds the entries of the lines after it up to the next
    header line and no others; and [readSection], [readEntry],
    [writeEntry] and [writeSection] look at the first section with the
    name only.  In the map implementation [readAll] keeps at most one node
    per name. *)
Theorem C6_vector_keeps_duplicate_sections :
  (forall lines : list string,
      map VecImpl.section_name (VecImpl.readAll_lines lines) = header_names lines)
  /\
  (forall (pre body : list string) (n : string),
      Forall (fun l => is_header l = false) body ->
      VecImpl.readAll_lines (pre ++ header_line n :: body)
      = VecImpl.readAll_lines pre ++ [VecImpl.mkSection n (entries_of_lines body)])
  /\
  (forall (n : string) (s : VecImpl.iniSection) (pre post : list VecImpl.iniSection),
      Forall (fun x => VecImpl.section_name x <> n) pre ->
      VecImpl.section_name s = n ->
      VecImpl.section_has_entries n (pre ++ s :: post)
      = negb (match VecImpl.entries s with [] => true | _ => false end) /\
      (forall key, VecImpl.section_entry_value n key (pre ++ s :: post)
                   = VecImpl.entry_value key (VecImpl.entries s)) /\
      VecImpl.find_section n (pre ++ s :: post) = Some (List.length pre) /\
      (forall es, VecImpl.replace_section (VecImpl.mkSection n es) (pre ++ s :: post)
                  = (pre ++ VecImpl.mkSection n es :: post, true)))
  /\
  (forall (U : MapImpl.unordered_map_impl) (lines : list string),
      NoDup (keys (MapImpl.readAll_lines U lines))).
Proof.
  split; [| split; [| split]].
  - intros lines. unfold VecImpl.readAll_lines. now rewrite vec_lines_names.
  - intros pre body n Hbody. unfold VecImpl.readAll_lines.
    rewrite fold_left_app. cbn [fold_left].
    destruct (fold_left VecImpl.readAll_line pre ([], None)) as [secs cur].
    rewrite vec_line_header, (vec_read_body body Hbody). reflexivity.
  - intros n s pre post Hpre Hs. repeat split.
    + now apply section_has_entries_first.
    + intros key. now apply section_entry_value_first.
    + now apply find_section_first_index.
    + intros es. rewrite (replace_section_first (VecImpl.mkSection n es) s); auto.
      cbn [VecImpl.entries]. now rewrite Hs.
  - intros U lines. unfold MapImpl.readAll_lines.
    apply map_lines_nodup. constructor.
Qed.

Lemma C6_vector_keeps_duplicate_sections_witness :
  VecImpl.readAll_lines (["[S]"; "a=1"] ++ header_line "S" :: ["b=2"])
  = VecImpl.readAll_lines ["[S]"; "a=1"]
    ++ [VecImpl.mkSection "S" (entries_of_lines ["b=2"])]
  /\
  VecImpl.section_entry_value "S" "b"
    ([] ++ VecImpl.mkSection "S" [VecImpl.mkEntry "a" "1"]
        :: [VecImpl.mkSection "S" [VecImpl.mkEntry "b" "2"]])
  = VecImpl.entry_value "b" (VecImpl.entries (VecImpl.mkSection "S" [VecImpl.mkEntry "a" "1"])).
Proof.
  split.
  - apply (proj1 (proj2 C6_vector_keeps_duplicate_sections)).
    constructor; [reflexivity | constructor].
  - apply (proj1 (proj2 (proj2 C6_vector_keeps_duplicate_sections)) "S"
                 (VecImpl.mkSection "S" [VecImpl.mkEntry "a" "1"]) []
                 [VecImpl.mkSection "S" [VecImpl.mkEntry "b" "2"]]
                 (Forall_nil _) eq_refl).
Defined.

(** * Further properties of the code *)

(** ** Keys and values that survive a line *)

Lemma find_append_absent (c : ascii) (k rest : string) :
  contains c k = false -> find c (k +++ String c rest) = Some (String.length k).
Proof.
  induction k as [|a k IH]; cbn [contains append find String.length]; intros H.
  - now rewrite Ascii.eqb_refl.
  - apply orb_false_iff in H. destruct H as [Ha Hk].
    rewrite Ha, (IH Hk). reflexivity.
Qed.

Lemma substring_prefix (k rest : string) :
  String.substring 0 (String.length k) (k +++ rest) = k.
Proof.
  induction k as [|a k IH]; cbn [append String.length String.substring].
  - now destruct rest.
  - now rewrite IH.
Qed.

Lemma substring_whole (v : string) : String.substring 0 (String.length v) v = v.
Proof.
  induction v as [|a v IH]; [reflexivity |].
  cbn [String.length String.substring]. now rewrite IH.
Qed.

Lemma substr_from_suffix (k v : string) (c : ascii) :
  substr_from (String.length k + 1) (k +++ String c v) = v.
Proof.
  unfold substr_from. rewrite length_append. cbn [String.length].
  replace (String.length k + S (String.length v) - (String.length k + 1))
    with (String.length v) by lia.
  induction k as [|a k IH]; cbn [append String.length Nat.add String.substring].
  - apply substring_whole.
  - exact IH.
Qed.

Lemma front_append (k rest : string) (a : ascii) :
  front (k +++ String a rest) = match front k with Some b => Some b | None => Some a end.
Proof. now destruct k. Qed.

Lemma is_header_front (line : string) (a : ascii) :
  front line = Some a -> a <> "["%char -> is_header line = false.
Proof.
  unfold is_header. intros Hf Ha. rewrite Hf.
  apply Ascii.eqb_neq in Ha. rewrite Ha. now destruct (back line).
Qed.

(** A plain key and a plain value are read back from their line as they are:
    the cut is at the first ['='], so the value may hold ['='] itself, and
    nothing is trimmed. *)
Lemma plain_line_safe (k v : string) : plain_key k -> plain_value v -> line_safe k v.
Proof.
  intros (Heq & Hnl & Hfront) Hv. unfold plain_value in Hv. split.
  - unfold one_line, kv_line. rewrite !contains_append, Hnl, Hv. reflexivity.
  - unfold split_line, kv_line.
    change ("=" +++ v) with (String "="%char v).
    assert (He : empty (k +++ String "="%char v) = false) by now destruct k.
    rewrite He.
    assert (Hh : is_header (k +++ String "="%char v) = false).
    { destruct (front k) as [b|] eqn:Hb.
      - apply (is_header_front _ b); [now rewrite front_append, Hb | congruence].
      - apply (is_header_front _ "="%char); [now rewrite front_append, Hb | discriminate]. }
    rewrite Hh, (find_append_absent _ _ _ Heq).
    unfold substr. now rewrite substring_prefix, substr_from_suffix.
Qed.

Lemma plain_pairs_safe (es : list MapImpl.kv) : Forall plain_pair es -> Forall pair_safe es.
Proof.
  induction 1 as [|[k v] es [Hk Hv] _ IH]; constructor; [| exact IH].
  now apply plain_line_safe.
Qed.

Lemma plain_entries_safe (es : list VecImpl.iniEntry) :
  Forall plain_entry es -> Forall entry_safe es.
Proof.
  induction 1 as [|e es [Hk Hv] _ IH]; constructor; [| exact IH].
  now apply plain_line_safe.
Qed.

(** ** The constructor and [empty()] *)

(** X1: A handler constructed on a path where no file exists reports
    [empty()] unless the file it created cannot be opened for reading
    ([empty()] is [true] when the file could not be created, too);
    constructing a handler never changes a file that exists; and
    constructing a second handler on the same path changes nothing. *)
Theorem X1_constructor_and_empty (d : Disk) :
  (content d = None ->
   IniHandler_empty (IniHandler_ctor d) = (negb (may_write d) || may_read d)) /\
  (content d <> None -> IniHandler_ctor d = d) /\
  IniHandler_ctor (IniHandler_ctor d) = IniHandler_ctor d.
Proof.
  destruct d as [[bytes|] r w].
  - split; [intros H; discriminate H |]. split; reflexivity.
  - split; [| split].
    + intros _. now destruct r, w.
    + intros H. now contradiction H.
    + now destruct w.
Qed.

Lemma X1_constructor_and_empty_witness :
  IniHandler_empty (IniHandler_ctor (mkDisk None true true)) = true /\
  IniHandler_ctor (mkDisk (Some "[S]") true true) = mkDisk (Some "[S]") true true.
Proof.
  split.
  - apply (proj1 (X1_constructor_and_empty (mkDisk None true true))). reflexivity.
  - apply (proj1 (proj2 (X1_constructor_and_empty (mkDisk (Some "[S]") true true)))).
    discriminate.
Defined.

Lemma written_not_empty (d d' : Disk) (w : string) :
  open_out d w = Some d' -> String.length w <> 0 -> IniHandler_empty d' = false.
Proof.
  intros Ho Hw. apply open_out_Some in Ho. destruct Ho as [_ Ho]. subst d'.
  unfold IniHandler_empty, open_in. cbn [content may_read].
  destruct (may_read d); [| reflexivity]. now apply Nat.eqb_neq.
Qed.

Lemma write_map_length (m : MapImpl.umap) :
  m <> [] -> String.length (MapImpl.write_map m) <> 0.
Proof. destruct m as [|[n es] m]; [congruence | discriminate]. Qed.

Lemma write_sections_length (secs : list VecImpl.iniSection) :
  secs <> [] -> String.length (VecImpl.write_sections secs) <> 0.
Proof. destruct secs as [|s secs]; [congruence | discriminate]. Qed.

Lemma assign_not_nil (U : MapImpl.unordered_map_impl) (k : string)
      (v : list MapImpl.kv) (m : MapImpl.umap) :
  NoDup (keys m) -> MapImpl.assign U k v m <> [].
Proof.
  intros Hnd E. pose proof (lookup_assign U k k v m Hnd) as H.
  rewrite E, String.eqb_refl in H. discriminate H.
Qed.

Lemma sections_after_section_not_nil (section : VecImpl.iniSection)
      (secs : list VecImpl.iniSection) :
  sections_after_section section secs <> [].
Proof.
  destruct secs as [|x r]; [discriminate |].
  rewrite sections_after_section_cons.
  destruct (String.eqb _ _); discriminate.
Qed.

Lemma sections_after_entry_not_nil (n : string) (e : VecImpl.iniEntry)
      (secs : list VecImpl.iniSection) :
  sections_after_entry n e secs <> [].
Proof.
  destruct secs as [|x r]; [discriminate |].
  rewrite sections_after_entry_cons.
  destruct (String.eqb _ _); discriminate.
Qed.

Lemma map_writeValue_eq (U : MapImpl.unordered_map_impl) (d : Disk)
      (section key val : string) :
  MapImpl.writeValue U d section key val =
  MapImpl.writeSection U d section
    (MapImpl.put_value key val (snd (MapImpl.readSection U d section []))).
Proof.
  unfold MapImpl.writeValue. now destruct (MapImpl.readSection U d section []).
Qed.

(** X2: After any successful write, of either implementation and whatever
    was written (an empty entry list included), [empty()] is [false]: every
    write puts at least the header line of the written section into the
    file. *)
Theorem X2_not_empty_after_write :
  (forall (U : MapImpl.unordered_map_impl) (d d' : Disk) (section : string)
          (entries : list MapImpl.kv),
      MapImpl.writeSection U d section entries = (true, d') ->
      IniHandler_empty d' = false) /\
  (forall (U : MapImpl.unordered_map_impl) (d d' : Disk) (section key val : string),
      MapImpl.writeValue U d section key val = (true, d') ->
      IniHandler_empty d' = false) /\
  (forall (d d' : Disk) (file file' : VecImpl.iniFile) (section : VecImpl.iniSection),
      VecImpl.writeSection d file section = (true, file', d') ->
      IniHandler_empty d' = false) /\
  (forall (d d' : Disk) (file file' : VecImpl.iniFile) (section : string)
          (entry : VecImpl.iniEntry),
      VecImpl.writeEntry d file section entry = (true, file', d') ->
      IniHandler_empty d' = false) /\
  (forall (d d' : Disk) (file file' : VecImpl.iniFile) (section key val : string),
      VecImpl.writeEntry_str d file section key val = (true, file', d')
      \/ VecImpl.writeValue d file section key val = (true, file', d') ->
      IniHandler_empty d' = false).
Proof.
  assert (Hmap : forall U d d' section entries,
             MapImpl.writeSection U d section entries = (true, d') ->
             IniHandler_empty d' = false).
  { intros U d d' section entries. rewrite map_writeSection_eq.
    destruct (open_out d _) as [d1|] eqn:Ho; [| discriminate].
    intros H. injection H as H. subst d1.
    apply (written_not_empty _ _ _ Ho).
    apply write_map_length, assign_not_nil. apply map_readAll_good. }
  assert (Hvec : forall d d' file file' section entry,
             VecImpl.writeEntry d file section entry = (true, file', d') ->
             IniHandler_empty d' = false).
  { intros d d' file file' section entry. rewrite vec_writeEntry_eq.
    destruct (open_in d) as [bytes|]; [| discriminate]. cbv zeta.
    destruct (open_out d _) as [d1|] eqn:Ho; [| discriminate].
    intros H. injection H as _ H. subst d1.
    apply (written_not_empty _ _ _ Ho).
    apply write_sections_length, sections_after_entry_not_nil. }
  split; [exact Hmap |]. split; [| split; [| split; [exact Hvec |]]].
  - intros U d d' section key val. rewrite map_writeValue_eq. apply Hmap.
  - intros d d' file file' section. rewrite vec_writeSection_eq.
    destruct (open_in d) as [bytes|]; [| discriminate]. cbv zeta.
    destruct (open_out d _) as [d1|] eqn:Ho; [| discriminate].
    intros H. injection H as _ H. subst d1.
    apply (written_not_empty _ _ _ Ho).
    apply write_sections_length, sections_after_section_not_nil.
  - intros d d' file file' section key val [H|H].
    + rewrite vec_writeEntry_str_writeEntry in H. exact (Hvec _ _ _ _ _ _ H).
    + rewrite vec_writeValue_writeEntry in H. exact (Hvec _ _ _ _ _ _ H).
Qed.

Lemma X2_not_empty_after_write_witness :
  IniHandler_empty (mkDisk (Some ("[S]" +++ nl +++ nl)) true true) = false.
Proof.
  apply (proj1 X2_not_empty_after_write MapImpl.back_inserting
           (mkDisk None true true) _ "S" []).
  reflexivity.
Defined.

(** ** Lines the loop passes over *)

Lemma map_line_skipped (U : MapImpl.unordered_map_impl) (st : MapImpl.umap * string)
      (line : string) :
  is_header line = false -> split_line line = None ->
  MapImpl.readAll_line U st line = st.
Proof.
  destruct st as [m cur]. unfold split_line, MapImpl.readAll_line. intros Hh.
  rewrite Hh. destruct (empty line); [reflexivity |].
  now destruct (find "="%char line).
Qed.

(** X3: A line that is empty, or that is not a section header and holds no
    ['='], changes nothing in either [readAll]: wherever it stands, the
    sections read are those of the file without it, and the lines after it
    are read as usual. *)
Theorem X3_malformed_line_is_skipped (pre rest : list string) (line : string) :
  line = EmptyString \/ (is_header line = false /\ find "="%char line = None) ->
  VecImpl.readAll_lines (pre ++ line :: rest) = VecImpl.readAll_lines (pre ++ rest) /\
  (forall U : MapImpl.unordered_map_impl,
      MapImpl.readAll_lines U (pre ++ line :: rest) = MapImpl.readAll_lines U (pre ++ rest)).
Proof.
  intros H.
  assert (Hh : is_header line = false /\ split_line line = None).
  { destruct H as [H | [H1 H2]].
    - subst line. split; reflexivity.
    - split; [exact H1 |]. unfold split_line. rewrite H1, H2.
      now destruct (empty line). }
  destruct Hh as [Hh Hs]. split.
  - unfold VecImpl.readAll_lines. rewrite !fold_left_app. cbn [fold_left].
    now rewrite (vec_line_skipped _ _ Hh Hs).
  - intros U. unfold MapImpl.readAll_lines. rewrite !fold_left_app. cbn [fold_left].
    now rewrite (map_line_skipped U _ _ Hh Hs).
Qed.

Lemma X3_malformed_line_is_skipped_witness :
  VecImpl.readAll_lines (["[S]"; "a=1"] ++ "no equals sign" :: ["b=2"])
  = VecImpl.readAll_lines (["[S]"; "a=1"] ++ ["b=2"]).
Proof.
  apply (X3_malformed_line_is_skipped ["[S]"; "a=1"] ["b=2"] "no equals sign").
  right. split; reflexivity.
Defined.

(** ** What [readAll] can yield *)

Lemma find_prefix_absent (c : ascii) (line : string) (pos : nat) :
  find c line = Some pos -> contains c (String.substring 0 pos line) = false.
Proof.
  revert pos. induction line as [|a line IH]; intros pos H; [discriminate |].
  cbn [find] in H. destruct (Ascii.eqb a c) eqn:Hac.
  - injection H as H. subst pos. reflexivity.
  - destruct (find c line) as [p|]; [| discriminate].
    injection H as H. subst pos. cbn [String.substring contains].
    rewrite Hac. now apply IH.
Qed.

Lemma line_safe_parts (k v : string) :
  line_safe k v ->
  contains "="%char k = false /\ contains LF k = false /\ contains LF v = false.
Proof.
  intros [Hl Hs]. unfold one_line, kv_line in Hl. rewrite !contains_append in Hl.
  apply orb_false_iff in Hl. destruct Hl as [Hk Hl].
  apply orb_false_iff in Hl. destruct Hl as [_ Hv].
  repeat split; auto.
  unfold split_line in Hs. destruct (empty (kv_line k v)); [discriminate |].
  destruct (is_header (kv_line k v)); [discriminate |].
  destruct (find "="%char (kv_line k v)) as [pos|] eqn:Hf; [| discriminate].
  injection Hs as Hk' _. rewrite <- Hk'. now apply find_prefix_absent.
Qed.

Section MapNonEmpty.

Variable U : MapImpl.unordered_map_impl.

Lemma map_line_nonempty (st : MapImpl.umap * string) (line : string) :
  NoDup (keys (fst st)) ->
  (forall k es, MapImpl.lookup k (fst st) = Some es -> es <> []) ->
  forall k es, MapImpl.lookup k (fst (MapImpl.readAll_line U st line)) = Some es -> es <> [].
Proof.
  destruct st as [m cur]. cbn [fst]. intros Hnd H. unfold MapImpl.readAll_line.
  destruct (empty line); [exact H |].
  destruct (is_header line); [exact H |].
  destruct (find "="%char line) as [pos|]; [| exact H].
  cbn [fst]. intros k es. rewrite lookup_emplace_back by exact Hnd.
  destruct (String.eqb cur k).
  - intros E. injection E as E. subst es. now destruct (at_key cur m).
  - apply H.
Qed.

Lemma map_lines_nonempty (lines : list string) (st : MapImpl.umap * string) :
  NoDup (keys (fst st)) ->
  (forall k es, MapImpl.lookup k (fst st) = Some es -> es <> []) ->
  forall k es,
    MapImpl.lookup k (fst (fold_left (MapImpl.readAll_line U) lines st)) = Some es ->
    es <> [].
Proof.
  revert st. induction lines as [|l lines IH]; intros st Hnd H; [exact H |].
  cbn [fold_left]. apply IH; [now apply map_line_nodup | now apply map_line_nonempty].
Qed.

(** No node of the map [readAll] builds has an empty vector. *)
Lemma map_readAll_nonempty (lines : list string) (k : string) (es : list MapImpl.kv) :
  MapImpl.lookup k (MapImpl.readAll_lines U lines) = Some es -> es <> [].
Proof.
  apply map_lines_nonempty; [constructor | discriminate].
Qed.

End MapNonEmpty.

(** X4: Whatever the file holds, the strings [readAll] yields are clean: no
    section name, key or value holds a ['\n'] and no key holds a ['='];
    and in the map implementation no section comes with an empty entry
    list (a header without entries leaves no node). *)
Theorem X4_readAll_yields_clean_strings (bytes : string) :
  (forall s, In s (VecImpl.readAll_lines (getlines bytes)) ->
             contains LF (VecImpl.section_name s) = false /\
             forall e, In e (VecImpl.entries s) ->
                       contains "="%char (VecImpl.name e) = false /\
                       contains LF (VecImpl.name e) = false /\
                       contains LF (VecImpl.value e) = false)
  /\
  (forall (U : MapImpl.unordered_map_impl) n es,
      In (n, es) (MapImpl.readAll_lines U (getlines bytes)) ->
      contains LF n = false /\ es <> [] /\
      forall k v, In (k, v) es ->
                  contains "="%char k = false /\
                  contains LF k = false /\
                  contains LF v = false).
Proof.
  split.
  - intros s Hs. pose proof (vec_readAll_safe bytes) as Hsafe.
    unfold sections_safe in Hsafe. rewrite Forall_forall in Hsafe.
    destruct (Hsafe s Hs) as [Hn Hes]. split; [exact Hn |].
    intros e He. rewrite Forall_forall in Hes. now apply line_safe_parts, Hes.
  - intros U n es Hin. destruct (map_readAll_inv U bytes) as [Hnd Hsafe].
    unfold map_safe in Hsafe. rewrite Forall_forall in Hsafe.
    destruct (Hsafe _ Hin) as [Hn Hes]. cbn [fst snd] in Hn, Hes.
    split; [exact Hn |]. split.
    + apply (map_readAll_nonempty U (getlines bytes) n). now apply In_lookup.
    + intros k v Hkv. rewrite Forall_forall in Hes.
      exact (line_safe_parts k v (Hes _ Hkv)).
Qed.

Lemma X4_readAll_yields_clean_strings_witness :
  contains LF "S" = false /\
  [("a", "b=c=d")] <> [] /\
  forall k v, In (k, v) [("a", "b=c=d")] ->
              contains "="%char k = false /\ contains LF k = false /\ contains LF v = false.
Proof.
  apply (proj2 (X4_readAll_yields_clean_strings
                  ("[S]" +++ nl +++ "a=b=c=d" +++ nl +++ "[T]" +++ nl))
               MapImpl.front_inserting "S" [("a", "b=c=d")]).
  left. reflexivity.
Defined.

(** ** The map implementation: writing, then reading *)

Lemma merged_None (o : option (list MapImpl.kv)) :
  (forall es, o = Some es -> es <> []) -> merged None o = o.
Proof.
  intros H. destruct o as [[|e es]|]; try reflexivity.
  now contradiction (H [] eq_refl).
Qed.

Lemma first_value_put (key val k' : string) (es : list MapImpl.kv) :
  MapImpl.first_value k' (MapImpl.put_value key val es) =
  if String.eqb key k' then val else MapImpl.first_value k' es.
Proof.
  induction es as [|[k0 v0] r IH].
  - rewrite put_value_nil. cbn [MapImpl.first_value]. reflexivity.
  - rewrite put_value_cons. destruct (String.eqb_spec k0 key) as [E|E].
    + subst k0. cbn [MapImpl.first_value]. now destruct (String.eqb key k').
    + cbn [MapImpl.first_value]. rewrite IH.
      destruct (String.eqb_spec k0 k') as [E1|E1]; [| reflexivity].
      subst k0. now destruct (String.eqb_spec key k'); [congruence |].
Qed.

Section MapWriteThenRead.

Variable U : MapImpl.unordered_map_impl.

(** What every name maps to when the file a successful [writeSection] left
    is read. *)
Lemma map_written_lookup (d d' : Disk) (section : string) (entries : list MapImpl.kv) :
  one_line section -> Forall pair_safe entries ->
  MapImpl.writeSection U d section entries = (true, d') ->
  may_read d' = true ->
  exists bytes',
    open_in d' = Some bytes' /\
    forall k,
      MapImpl.lookup k (MapImpl.readAll_lines U (getlines bytes')) =
      merged None (if String.eqb section k then Some entries
                   else MapImpl.lookup k (snd (MapImpl.readAll U d []))).
Proof.
  intros Hn Hes Hw Hr.
  destruct (map_writeSection_ok _ _ _ _ _ Hw) as (_ & _ & Hc).
  destruct (map_readAll_good U d) as [Hnd Hs].
  set (m := snd (MapImpl.readAll U d [])) in *.
  exists (MapImpl.write_map (MapImpl.assign U section entries m)). split.
  - unfold open_in. now rewrite Hr.
  - intros k. destruct (map_read_written U (MapImpl.assign U section entries m)) as [_ Hl].
    + now apply assign_safe.
    + now apply assign_nodup.
    + rewrite Hl. now rewrite lookup_assign.
Qed.

Lemma map_readAll_snd_nonempty (d : Disk) (k : string) (es : list MapImpl.kv) :
  MapImpl.lookup k (snd (MapImpl.readAll U d [])) = Some es -> es <> [].
Proof.
  rewrite map_readAll_eq. destruct (open_in d) as [bytes|]; cbn [snd].
  - apply map_readAll_nonempty.
  - discriminate.
Qed.

Lemma map_readSection_snd (d : Disk) (section : string) :
  snd (MapImpl.readSection U d section []) = at_key section (snd (MapImpl.readAll U d [])).
Proof.
  unfold at_key. destruct (open_in d) as [bytes|] eqn:Hin.
  - rewrite (map_readSection_eq U d bytes) by exact Hin.
    rewrite map_readAll_eq, Hin. cbn [snd].
    now destruct (MapImpl.lookup section (MapImpl.readAll_lines U (getlines bytes))).
  - unfold MapImpl.readSection. rewrite map_readAll_eq, Hin. reflexivity.
Qed.

End MapWriteThenRead.

(** X5: Round trip of the map implementation for any section: when the
    name has no ['\n'] and the entries, at least one, have plain keys and
    values (no ['\n'], no ['='] in a key, no key that begins with ['[']),
    then after a successful [writeSection] a [readSection] of the name on
    the written file returns [true] with exactly the entries written, in
    order and with repeated keys kept, and [readValue] returns the value of
    the first entry with the key. *)
Theorem X5_map_write_section_read_back
        (U : MapImpl.unordered_map_impl) (d d' : Disk) (section : string)
        (e : MapImpl.kv) (es out : list MapImpl.kv) :
  contains LF section = false ->
  Forall plain_pair (e :: es) ->
  MapImpl.writeSection U d section (e :: es) = (true, d') ->
  may_read d' = true ->
  MapImpl.readSection U d' section out = (true, e :: es) /\
  forall key, MapImpl.readValue U d' section key = MapImpl.first_value key (e :: es).
Proof.
  intros Hn Hes Hw Hr. apply plain_pairs_safe in Hes.
  destruct (map_written_lookup U d d' section (e :: es) Hn Hes Hw Hr) as (bytes' & Hin & Hl).
  specialize (Hl section). rewrite String.eqb_refl in Hl. cbn [merged app] in Hl.
  split.
  - rewrite (map_readSection_eq U d' bytes') by exact Hin. now rewrite Hl.
  - intros key. rewrite (map_readValue_eq U d' bytes') by exact Hin. now rewrite Hl.
Qed.

Lemma X5_map_write_section_read_back_witness :
  MapImpl.readSection MapImpl.back_inserting
    (mkDisk (Some ("[T]" +++ nl +++ "x=y" +++ nl +++ nl +++
                   "[my section]" +++ nl +++ " k = v=w " +++ nl +++ " k =2" +++ nl +++ nl))
            true true)
    "my section" []
  = (true, [(" k ", " v=w "); (" k ", "2")]).
Proof.
  apply (X5_map_write_section_read_back MapImpl.back_inserting
           (mkDisk (Some ("[T]" +++ nl +++ "x=y" +++ nl)) true true)).
  - reflexivity.
  - constructor; [| constructor; [| constructor]];
      (split; [split; [reflexivity | split; [reflexivity | discriminate]] | reflexivity]).
  - reflexivity.
  - reflexivity.
Defined.

(** X6: In the map implementation a section written with an empty entry
    list cannot be read back: when the name has no ['\n'] and the written
    file can be opened for reading, then after a successful
    [writeSection(section, {})] the file holds the header line of the
    section, but [readSection] of the name returns [false] with
    [outEntries] empty and [readValue] returns the empty string, also when
    the section had entries before. *)
Theorem X6_map_empty_section_is_not_found
        (U : MapImpl.unordered_map_impl) (d d' : Disk) (section : string)
        (out : list MapImpl.kv) :
  contains LF section = false ->
  MapImpl.writeSection U d section [] = (true, d') ->
  may_read d' = true ->
  MapImpl.readSection U d' section out = (false, []) /\
  forall key, MapImpl.readValue U d' section key = EmptyString.
Proof.
  intros Hn Hw Hr.
  destruct (map_written_lookup U d d' section [] Hn (Forall_nil _) Hw Hr)
    as (bytes' & Hin & Hl).
  specialize (Hl section). rewrite String.eqb_refl in Hl. cbn [merged] in Hl.
  split.
  - rewrite (map_readSection_eq U d' bytes') by exact Hin. now rewrite Hl.
  - intros key. rewrite (map_readValue_eq U d' bytes') by exact Hin. now rewrite Hl.
Qed.

Lemma X6_map_empty_section_is_not_found_witness :
  MapImpl.readSection MapImpl.back_inserting
    (mkDisk (Some ("[S]" +++ nl +++ nl)) true true) "S" [("old", "pair")]
  = (false, []).
Proof.
  apply (X6_map_empty_section_is_not_found MapImpl.back_inserting
           (mkDisk (Some ("[S]" +++ nl +++ "a=1" +++ nl)) true true)).
  - reflexivity.
  - reflexivity.
  - reflexivity.
Defined.

(** X7: In the map implementation a successful [writeSection] on a file
    that can be read leaves every other section as it was for the readers:
    when the written name has no ['\n'] and the written entries are plain,
    [readSection] and [readValue] of any other name answer on the new file
    what they answered on the old one, for every iteration order of the
    map. *)
Theorem X7_map_write_section_keeps_other_sections
        (U : MapImpl.unordered_map_impl) (d d' : Disk) (bytes : string)
        (section other : string) (entries out : list MapImpl.kv) :
  open_in d = Some bytes ->
  contains LF section = false ->
  Forall plain_pair entries ->
  MapImpl.writeSection U d section entries = (true, d') ->
  other <> section ->
  MapImpl.readSection U d' other out = MapImpl.readSection U d other out /\
  forall key, MapImpl.readValue U d' other key = MapImpl.readValue U d other key.
Proof.
  intros Hin Hn Hes Hw Hne. apply plain_pairs_safe in Hes.
  assert (Hr : may_read d' = true).
  { destruct (map_writeSection_ok _ _ _ _ _ Hw) as (Hr & _). rewrite Hr.
    now apply open_in_Some in Hin. }
  destruct (map_written_lookup U d d' section entries Hn Hes Hw Hr) as (bytes' & Hin' & Hl).
  specialize (Hl other).
  assert (E : String.eqb section other = false) by (apply String.eqb_neq; congruence).
  rewrite E in Hl. rewrite merged_None in Hl by apply map_readAll_snd_nonempty.
  rewrite map_readAll_eq, Hin in Hl. cbn [snd] in Hl.
  split.
  - rewrite (map_readSection_eq U d' bytes'), (map_readSection_eq U d bytes) by assumption.
    now rewrite Hl.
  - intros key.
    rewrite (map_readValue_eq U d' bytes'), (map_readValue_eq U d bytes) by assumption.
    now rewrite Hl.
Qed.

Lemma X7_map_write_section_keeps_other_sections_witness :
  MapImpl.readSection MapImpl.front_inserting
    (mkDisk (Some ("[S]" +++ nl +++ "a=1" +++ nl +++ nl +++
                   "[T]" +++ nl +++ "x=y" +++ nl +++ nl)) true true) "T" []
  = MapImpl.readSection MapImpl.front_inserting
      (mkDisk (Some ("[T]" +++ nl +++ "x=y" +++ nl)) true true) "T" [].
Proof.
  assert (Hne : "T"%string <> "S"%string) by discriminate.
  apply (X7_map_write_section_keeps_other_sections MapImpl.front_inserting
           (mkDisk (Some ("[T]" +++ nl +++ "x=y" +++ nl)) true true)
           (mkDisk (Some ("[S]" +++ nl +++ "a=1" +++ nl +++ nl +++
                          "[T]" +++ nl +++ "x=y" +++ nl +++ nl)) true true)
           ("[T]" +++ nl +++ "x=y" +++ nl) "S" "T" [("a", "1")] []
           eq_refl eq_refl).
  - constructor; [| constructor].
    split; [split; [reflexivity | split; [reflexivity | discriminate]] | reflexivity].
  - reflexivity.
  - exact Hne.
Defined.

Lemma assign_in_empty (U : MapImpl.unordered_map_impl) (k : string) (v : list MapImpl.kv) :
  MapImpl.assign U k v [] = [(k, v)].
Proof.
  unfold MapImpl.assign, MapImpl.subscript. cbn [MapImpl.count].
  rewrite (Permutation_length_1_inv
             (Permutation_sym (MapImpl.insert_node_perm U k [] []))).
  cbn [MapImpl.modify]. now rewrite String.eqb_refl.
Qed.

(** X8: In the map implementation a write does not need the file to be
    readable, and then it loses what the file held: when the file cannot be
    opened for reading but can be opened for writing, [writeSection]
    succeeds and the file holds the written section and nothing else, and
    [writeValue] succeeds and the file holds the section with the one
    pair. *)
Theorem X8_map_write_on_unreadable_file_overwrites
        (U : MapImpl.unordered_map_impl) (d : Disk) (section : string) :
  open_in d = None -> may_write d = true ->
  (forall entries,
      exists d', MapImpl.writeSection U d section entries = (true, d') /\
                 content d' = Some (MapImpl.write_map [(section, entries)])) /\
  (forall key val,
      exists d', MapImpl.writeValue U d section key val = (true, d') /\
                 content d' = Some (MapImpl.write_map [(section, [(key, val)])])).
Proof.
  intros Hin Hw.
  assert (H : forall entries,
             exists d', MapImpl.writeSection U d section entries = (true, d') /\
                        content d' = Some (MapImpl.write_map [(section, entries)])).
  { intros entries. rewrite map_writeSection_eq, map_readAll_eq, Hin. cbn [snd].
    rewrite assign_in_empty. unfold open_out. rewrite Hw.
    eexists. split; reflexivity. }
  split; [exact H |].
  intros key val. rewrite map_writeValue_eq.
  unfold MapImpl.readSection. rewrite map_readAll_eq, Hin. cbn [snd].
  rewrite put_value_nil. apply H.
Qed.

Lemma X8_map_write_on_unreadable_file_overwrites_witness :
  exists d',
    MapImpl.writeSection MapImpl.front_inserting
      (mkDisk (Some ("[T]" +++ nl +++ "x=y" +++ nl)) false true) "S" [("a", "1")]
    = (true, d') /\
    content d' = Some (MapImpl.write_map [("S", [("a", "1")])]).
Proof.
  apply (proj1 (X8_map_write_on_unreadable_file_overwrites MapImpl.front_inserting
                  (mkDisk (Some ("[T]" +++ nl +++ "x=y" +++ nl)) false true) "S"
                  eq_refl eq_refl)).
Defined.

(** X9: [writeValue] of the map implementation on a file that can be read,
    with a section name without ['\n'] and a plain key and value: after a
    successful call [readValue] of the section and key returns the value
    written, and [readValue] of every other section or key returns what it
    returned before the call; the section and the key are created when they
    were missing. *)
Theorem X9_map_write_value_then_read_value
        (U : MapImpl.unordered_map_impl) (d d' : Disk) (bytes : string)
        (section key val : string) :
  open_in d = Some bytes ->
  contains LF section = false -> plain_key key -> plain_value val ->
  MapImpl.writeValue U d section key val = (true, d') ->
  forall section' key',
    MapImpl.readValue U d' section' key' =
    if String.eqb section section' && String.eqb key key' then val
    else MapImpl.readValue U d section' key'.
Proof.
  intros Hin Hn Hk Hv Hw section' key'.
  rewrite map_writeValue_eq, map_readSection_snd in Hw.
  pose proof (map_readAll_good U d) as [Hnd Hsafe].
  set (m := snd (MapImpl.readAll U d [])) in *.
  assert (Hes : Forall pair_safe (MapImpl.put_value key val (at_key section m))).
  { apply put_value_safe; [now apply plain_line_safe |].
    unfold at_key. destruct (MapImpl.lookup section m) as [es|] eqn:E; [| constructor].
    now apply (map_safe_lookup section es m). }
  assert (Hr : may_read d' = true).
  { destruct (map_writeSection_ok _ _ _ _ _ Hw) as (Hr & _). rewrite Hr.
    now apply open_in_Some in Hin. }
  destruct (map_written_lookup U d d' section _ Hn Hes Hw Hr) as (bytes' & Hin' & Hl).
  specialize (Hl section'). fold m in Hl.
  rewrite (map_readValue_eq U d' bytes'), (map_readValue_eq U d bytes) by assumption.
  assert (Hm : m = MapImpl.readAll_lines U (getlines bytes))
    by (subst m; now rewrite map_readAll_eq, Hin).
  rewrite <- Hm, Hl.
  destruct (String.eqb_spec section section') as [E|E]; cbn [andb].
  - subst section'.
    rewrite merged_None.
    + rewrite first_value_put. destruct (String.eqb key key'); [reflexivity |].
      unfold at_key. now destruct (MapImpl.lookup section m).
    + intros es Hs. injection Hs as Hs. subst es. apply put_value_not_nil.
  - rewrite merged_None; [reflexivity |]. subst m. apply map_readAll_snd_nonempty.
Qed.

Lemma X9_map_write_value_then_read_value_witness :
  MapImpl.readValue MapImpl.front_inserting
    (mkDisk (Some ("[S]" +++ nl +++ "a=1" +++ nl +++ "b=2" +++ nl +++ nl)) true true)
    "S" "b"
  = "2".
Proof.
  apply (X9_map_write_value_then_read_value MapImpl.front_inserting
           (mkDisk (Some ("[S]" +++ nl +++ "a=1" +++ nl)) true true)
           (mkDisk (Some ("[S]" +++ nl +++ "a=1" +++ nl +++ "b=2" +++ nl +++ nl)) true true)
           ("[S]" +++ nl +++ "a=1" +++ nl) "S" "b" "2" eq_refl eq_refl).
  - split; [reflexivity | split; [reflexivity | discriminate]].
  - reflexivity.
  - reflexivity.
Defined.

(** ** The vector implementation: writing, then reading *)

Lemma sections_after_section_safe (section : VecImpl.iniSection)
      (secs : list VecImpl.iniSection) :
  section_safe section -> sections_safe secs ->
  sections_safe (sections_after_section section secs).
Proof.
  intros [Hn Hes]. induction 1 as [|x r [Hx1 Hx2] Hr IH].
  - constructor; [now split | constructor].
  - rewrite sections_after_section_cons.
    destruct (String.eqb _ _); constructor; auto; now split.
Qed.

(** What a successful [writeSection] leaves on disk, and what is read from it. *)
Lemma vec_writeSection_ok (d d1 : Disk) (file file1 : VecImpl.iniFile)
      (section : VecImpl.iniSection) :
  section_safe section ->
  VecImpl.writeSection d file section = (true, file1, d1) ->
  exists bytes,
    open_in d = Some bytes /\
    let secs := sections_after_section section (VecImpl.readAll_lines (getlines bytes)) in
    file1 = VecImpl.mkFile secs /\
    d1 = {| content := Some (VecImpl.write_sections secs);
            may_read := may_read d; may_write := may_write d |} /\
    open_in d1 = Some (VecImpl.write_sections secs) /\
    VecImpl.readAll_lines (getlines (VecImpl.write_sections secs)) = secs.
Proof.
  intros Hs. rewrite vec_writeSection_eq.
  destruct (open_in d) as [bytes|] eqn:Hin; [| discriminate].
  cbv zeta. destruct (open_out d _) as [d'|] eqn:Ho; [| discriminate].
  intros H. injection H as H1 H2. subst d'. exists bytes. split; [reflexivity |].
  apply open_out_Some in Ho. destruct Ho as [_ Ho].
  apply open_in_Some in Hin. destruct Hin as [Hr _].
  repeat split; auto.
  - rewrite Ho. unfold open_in. cbn [may_read content]. now rewrite Hr.
  - apply vec_read_written. apply sections_after_section_safe; auto.
    apply vec_readAll_safe.
Qed.

Lemma plain_section_safe (section : VecImpl.iniSection) :
  contains LF (VecImpl.section_name section) = false ->
  Forall plain_entry (VecImpl.entries section) ->
  section_safe section.
Proof.
  intros Hn Hes. split; [exact Hn | now apply plain_entries_safe].
Qed.

Lemma entry_value_put (e : VecImpl.iniEntry) (k' : string) (es : list VecImpl.iniEntry) :
  VecImpl.entry_value k' (VecImpl.put_entries e es) =
  if String.eqb (VecImpl.name e) k' then VecImpl.value e else VecImpl.entry_value k' es.
Proof.
  induction es as [|x r IH].
  - rewrite put_entries_nil. reflexivity.
  - rewrite put_entries_cons.
    destruct (String.eqb_spec (VecImpl.name x) (VecImpl.name e)) as [E|E].
    + cbn [VecImpl.entry_value VecImpl.name VecImpl.value]. rewrite E.
      now destruct (String.eqb (VecImpl.name e) k').
    + cbn [VecImpl.entry_value]. rewrite IH.
      destruct (String.eqb_spec (VecImpl.name x) k') as [E1|E1]; [| reflexivity].
      now destruct (String.eqb_spec (VecImpl.name e) k'); [congruence |].
Qed.

Lemma section_entry_value_after_entry (s s' k' : string) (e : VecImpl.iniEntry)
      (secs : list VecImpl.iniSection) :
  VecImpl.section_entry_value s' k' (sections_after_entry s e secs) =
  if String.eqb s s' && String.eqb (VecImpl.name e) k' then VecImpl.value e
  else VecImpl.section_entry_value s' k' secs.
Proof.
  induction secs as [|x r IH].
  - unfold sections_after_entry, VecImpl.target_section.
    cbn [VecImpl.find_section app List.length modify_at VecImpl.section_entry_value
         VecImpl.put_entry VecImpl.section_name VecImpl.entries].
    rewrite put_entries_nil. cbn [VecImpl.entry_value].
    now destruct (String.eqb s s'), (String.eqb (VecImpl.name e) k').
  - rewrite sections_after_entry_cons.
    destruct (String.eqb_spec (VecImpl.section_name x) s) as [E|E].
    + cbn [VecImpl.section_entry_value VecImpl.put_entry VecImpl.section_name VecImpl.entries].
      rewrite E. destruct (String.eqb s s'); cbn [andb]; [| reflexivity].
      apply entry_value_put.
    + cbn [VecImpl.section_entry_value]. rewrite IH.
      destruct (String.eqb_spec (VecImpl.section_name x) s') as [E1|E1]; [| reflexivity].
      now destruct (String.eqb_spec s s'); [congruence |].
Qed.

Lemma section_entry_value_after_section (section : VecImpl.iniSection) (s' k : string)
      (secs : list VecImpl.iniSection) :
  VecImpl.section_entry_value s' k (sections_after_section section secs) =
  if String.eqb (VecImpl.section_name section) s'
  then VecImpl.entry_value k (VecImpl.entries section)
  else VecImpl.section_entry_value s' k secs.
Proof.
  induction secs as [|x r IH].
  - reflexivity.
  - rewrite sections_after_section_cons.
    destruct (String.eqb_spec (VecImpl.section_name x) (VecImpl.section_name section))
      as [E|E].
    + cbn [VecImpl.section_entry_value VecImpl.section_name VecImpl.entries].
      rewrite E. now destruct (String.eqb (VecImpl.section_name section) s').
    + cbn [VecImpl.section_entry_value]. rewrite IH.
      destruct (String.eqb_spec (VecImpl.section_name x) s') as [E1|E1]; [| reflexivity].
      now destruct (String.eqb_spec (VecImpl.section_name section) s'); [congruence |].
Qed.

Lemma section_has_entries_after_section (section : VecImpl.iniSection) (s' : string)
      (secs : list VecImpl.iniSection) :
  VecImpl.section_has_entries s' (sections_after_section section secs) =
  if String.eqb (VecImpl.section_name section) s'
  then negb (match VecImpl.entries section with [] => true | _ => false end)
  else VecImpl.section_has_entries s' secs.
Proof.
  induction secs as [|x r IH].
  - reflexivity.
  - rewrite sections_after_section_cons.
    destruct (String.eqb_spec (VecImpl.section_name x) (VecImpl.section_name section))
      as [E|E].
    + cbn [VecImpl.section_has_entries VecImpl.section_name VecImpl.entries].
      rewrite E. now destruct (String.eqb (VecImpl.section_name section) s').
    + cbn [VecImpl.section_has_entries]. rewrite IH.
      destruct (String.eqb_spec (VecImpl.section_name x) s') as [E1|E1]; [| reflexivity].
      now destruct (String.eqb_spec (VecImpl.section_name section) s'); [congruence |].
Qed.

Lemma sections_after_section_idem (section : VecImpl.iniSection)
      (secs : list VecImpl.iniSection) :
  sections_after_section section (sections_after_section section secs)
  = sections_after_section section secs.
Proof.
  induction secs as [|x r IH].
  - change (sections_after_section section []) with [section].
    rewrite sections_after_section_cons, String.eqb_refl. now destruct section.
  - rewrite sections_after_section_cons.
    destruct (String.eqb (VecImpl.section_name x) (VecImpl.section_name section)) eqn:E.
    + rewrite sections_after_section_cons. cbn [VecImpl.section_name]. now rewrite E.
    + rewrite sections_after_section_cons, E. now rewrite IH.
Qed.

(** X10: In the vector implementation memory and disk agree after a
    successful write of plain strings: [file.sections] as [writeSection],
    [writeEntry] or [writeEntry_str] leaves it is exactly what a [readAll]
    on the written file yields. *)
Theorem X10_vector_memory_matches_disk :
  (forall (d d' : Disk) (file file' file1 : VecImpl.iniFile) (section : VecImpl.iniSection),
      contains LF (VecImpl.section_name section) = false ->
      Forall plain_entry (VecImpl.entries section) ->
      VecImpl.writeSection d file section = (true, file', d') ->
      VecImpl.readAll d' file1 = (true, file'))
  /\
  (forall (d d' : Disk) (file file' file1 : VecImpl.iniFile) (section key val : string),
      contains LF section = false -> plain_key key -> plain_value val ->
      VecImpl.writeEntry d file section (VecImpl.mkEntry key val) = (true, file', d')
      \/ VecImpl.writeEntry_str d file section key val = (true, file', d') ->
      VecImpl.readAll d' file1 = (true, file')).
Proof.
  split.
  - intros d d' file file' file1 section Hn Hes Hw.
    destruct (vec_writeSection_ok _ _ _ _ _ (plain_section_safe _ Hn Hes) Hw)
      as (bytes & _ & Hf & _ & Hin & Hback).
    rewrite vec_readAll_eq, Hin, Hback. now rewrite Hf.
  - intros d d' file file' file1 section key val Hn Hk Hv Hw.
    assert (Hw' : VecImpl.writeEntry d file section (VecImpl.mkEntry key val)
                  = (true, file', d')).
    { destruct Hw as [Hw|Hw]; [exact Hw |]. now rewrite <- vec_writeEntry_str_writeEntry. }
    destruct (vec_writeEntry_ok _ _ _ _ _ (VecImpl.mkEntry key val) Hn
              (plain_line_safe key val Hk Hv) Hw')
      as (bytes & _ & Hf & _ & Hin & Hback).
    rewrite vec_readAll_eq, Hin, Hback. now rewrite Hf.
Qed.

Lemma X10_vector_memory_matches_disk_witness :
  VecImpl.readAll
    (mkDisk (Some ("[A]" +++ nl +++ "x=1" +++ nl +++ nl +++
                   "[S]" +++ nl +++ "K=V" +++ nl +++ nl)) true true)
    (VecImpl.mkFile [])
  = (true, VecImpl.mkFile [VecImpl.mkSection "A" [VecImpl.mkEntry "x" "1"];
                           VecImpl.mkSection "S" [VecImpl.mkEntry "K" "V"]]).
Proof.
  apply (proj2 X10_vector_memory_matches_disk
           (mkDisk (Some ("junk" +++ nl +++ "[A]" +++ nl +++ "x=1" +++ nl)) true true)
           _ (VecImpl.mkFile []) _ (VecImpl.mkFile []) "S" "K" "V" eq_refl).
  - split; [reflexivity | split; [reflexivity | discriminate]].
  - reflexivity.
  - left. reflexivity.
Defined.

(** X11: [writeEntry] (and [writeEntry_str]) of the vector implementation
    with a section name without ['\n'] and a plain key and value: after a
    successful call [readEntry] of the section and key returns the value
    written, and [readEntry] of every other section or key returns what it
    returned before the call; the section and the key are created when they
    were missing. *)
Theorem X11_vector_write_entry_then_read_entry
        (d d' : Disk) (file file' file1 file2 : VecImpl.iniFile)
        (section key val : string) :
  contains LF section = false -> plain_key key -> plain_value val ->
  VecImpl.writeEntry d file section (VecImpl.mkEntry key val) = (true, file', d')
  \/ VecImpl.writeEntry_str d file section key val = (true, file', d') ->
  forall section' entry',
    fst (VecImpl.readEntry d' file1 section' entry') =
    if String.eqb section section' && String.eqb key (VecImpl.name entry') then val
    else fst (VecImpl.readEntry d file2 section' entry').
Proof.
  intros Hn Hk Hv Hw section' entry'.
  assert (Hw' : VecImpl.writeEntry d file section (VecImpl.mkEntry key val)
                = (true, file', d')).
  { destruct Hw as [Hw|Hw]; [exact Hw |]. now rewrite <- vec_writeEntry_str_writeEntry. }
  destruct (vec_writeEntry_ok _ _ _ _ _ (VecImpl.mkEntry key val) Hn
              (plain_line_safe key val Hk Hv) Hw')
    as (bytes & Hin & _ & _ & Hin' & Hback).
  unfold VecImpl.readEntry. rewrite !vec_readAll_eq, Hin, Hin', Hback. cbn [fst VecImpl.sections].
  apply section_entry_value_after_entry.
Qed.

Lemma X11_vector_write_entry_then_read_entry_witness :
  fst (VecImpl.readEntry
         (mkDisk (Some ("[S]" +++ nl +++ "a=1" +++ nl +++ "b=2" +++ nl +++ nl)) true true)
         (VecImpl.mkFile []) "S" (VecImpl.mkEntry "b" EmptyString))
  = "2".
Proof.
  apply (X11_vector_write_entry_then_read_entry
           (mkDisk (Some ("[S]" +++ nl +++ "a=1" +++ nl)) true true)
           _ (VecImpl.mkFile [])
           (VecImpl.mkFile [VecImpl.mkSection "S" [VecImpl.mkEntry "a" "1";
                                                   VecImpl.mkEntry "b" "2"]])
           (VecImpl.mkFile []) (VecImpl.mkFile [])
           "S" "b" "2" eq_refl).
  - split; [reflexivity | split; [reflexivity | discriminate]].
  - reflexivity.
  - left. reflexivity.
Defined.

(** X12: [writeSection] of the vector implementation with a section name
    without ['\n'] and plain entries: after a successful call [readEntry]
    in the written section returns the value of the first written entry
    with the key (the old entries of the section are gone), [readSection]
    of the written section returns whether entries were written, and
    [readEntry] and [readSection] of every other section return what they
    returned before. *)
Theorem X12_vector_write_section_then_read
        (d d' : Disk) (file file' file1 file2 : VecImpl.iniFile)
        (section : VecImpl.iniSection) :
  contains LF (VecImpl.section_name section) = false ->
  Forall plain_entry (VecImpl.entries section) ->
  VecImpl.writeSection d file section = (true, file', d') ->
  (forall section' entry',
      fst (VecImpl.readEntry d' file1 section' entry') =
      if String.eqb (VecImpl.section_name section) section'
      then VecImpl.entry_value (VecImpl.name entry') (VecImpl.entries section)
      else fst (VecImpl.readEntry d file2 section' entry'))
  /\
  (forall section',
      fst (VecImpl.readSection d' file1 section') =
      if String.eqb (VecImpl.section_name section) (VecImpl.section_name section')
      then negb (match VecImpl.entries section with [] => true | _ => false end)
      else fst (VecImpl.readSection d file2 section')).
Proof.
  intros Hn Hes Hw.
  destruct (vec_writeSection_ok _ _ _ _ _ (plain_section_safe _ Hn Hes) Hw)
    as (bytes & Hin & _ & _ & Hin' & Hback).
  split.
  - intros section' entry'. unfold VecImpl.readEntry.
    rewrite !vec_readAll_eq, Hin, Hin', Hback. cbn [fst VecImpl.sections].
    apply section_entry_value_after_section.
  - intros section'. unfold VecImpl.readSection.
    rewrite !vec_readAll_eq, Hin, Hin', Hback. cbn [fst VecImpl.sections].
    apply section_has_entries_after_section.
Qed.

Lemma X12_vector_write_section_then_read_witness :
  fst (VecImpl.readSection
         (mkDisk (Some ("[S]" +++ nl +++ nl)) true true)
         (VecImpl.mkFile []) (VecImpl.mkSection "S" []))
  = false.
Proof.
  apply (proj2 (X12_vector_write_section_then_read
                  (mkDisk (Some ("[S]" +++ nl +++ "a=1" +++ nl)) true true)
                  (mkDisk (Some ("[S]" +++ nl +++ nl)) true true)
                  (VecImpl.mkFile []) (VecImpl.mkFile [VecImpl.mkSection "S" []])
                  (VecImpl.mkFile []) (VecImpl.mkFile [])
                  (VecImpl.mkSection "S" []) eq_refl (Forall_nil _) eq_refl)
               (VecImpl.mkSection "S" [])).
Defined.

(** X13: [writeSection] of the vector implementation is idempotent on plain
    strings: when two calls in succession with the same section both
    succeed, the bytes of the file after the second call are the bytes
    after the first. *)
Theorem X13_vector_write_section_twice_same_bytes
        (d d1 d2 : Disk) (file file1 file' file2 : VecImpl.iniFile)
        (section : VecImpl.iniSection) :
  contains LF (VecImpl.section_name section) = false ->
  Forall plain_entry (VecImpl.entries section) ->
  VecImpl.writeSection d file section = (true, file1, d1) ->
  VecImpl.writeSection d1 file' section = (true, file2, d2) ->
  content d2 = content d1.
Proof.
  intros Hn Hes H1 H2. pose proof (plain_section_safe _ Hn Hes) as Hs.
  destruct (vec_writeSection_ok _ _ _ _ _ Hs H1) as (bytes & _ & _ & Hd1 & Hin1 & Hback).
  destruct (vec_writeSection_ok _ _ _ _ _ Hs H2) as (bytes1 & Hin1' & _ & Hd2 & _ & _).
  rewrite Hin1 in Hin1'. injection Hin1' as Hb. subst bytes1.
  rewrite Hback, sections_after_section_idem in Hd2.
  now rewrite Hd1, Hd2.
Qed.

Lemma X13_vector_write_section_twice_same_bytes_witness :
  content (mkDisk (Some ("[S]" +++ nl +++ "a=1" +++ nl +++ nl)) true true)
  = content (mkDisk (Some ("[S]" +++ nl +++ "a=1" +++ nl +++ nl)) true true).
Proof.
  apply (X13_vector_write_section_twice_same_bytes
           (mkDisk (Some ("[S]" +++ nl +++ "old=0" +++ nl)) true true)
           (mkDisk (Some ("[S]" +++ nl +++ "a=1" +++ nl +++ nl)) true true)
           (mkDisk (Some ("[S]" +++ nl +++ "a=1" +++ nl +++ nl)) true true)
           (VecImpl.mkFile [])
           (VecImpl.mkFile [VecImpl.mkSection "S" [VecImpl.mkEntry "a" "1"]])
           (VecImpl.mkFile [])
           (VecImpl.mkFile [VecImpl.mkSection "S" [VecImpl.mkEntry "a" "1"]])
           (VecImpl.mkSection "S" [VecImpl.mkEntry "a" "1"]) eq_refl).
  - constructor; [| constructor].
    split; [split; [reflexivity | split; [reflexivity | discriminate]] | reflexivity].
  - reflexivity.
  - reflexivity.
Defined.

(** ** [readSection] of the vector implementation *)

Lemma section_has_entries_first_section (n : string) (secs : list VecImpl.iniSection) :
  VecImpl.section_has_entries n secs =
  match first_section n secs with
  | Some s => negb (match VecImpl.entries s with [] => true | _ => false end)
  | None => false
  end.
Proof.
  unfold first_section. induction secs as [|x r IH]; [reflexivity |].
  cbn [VecImpl.section_has_entries List.find].
  now destruct (String.eqb (VecImpl.section_name x) n).
Qed.

(** X14: [readSection] of the vector implementation returns [true] exactly
    when the file can be opened for reading and the first section with the
    name has at least one entry; a section that is there without entries,
    or whose entries stand under a later header of the same name, gives
    [false], like a missing one. *)
Theorem X14_vector_read_section_true_iff
        (d : Disk) (file : VecImpl.iniFile) (section : VecImpl.iniSection) :
  fst (VecImpl.readSection d file section) = true <->
  exists bytes s,
    open_in d = Some bytes /\
    first_section (VecImpl.section_name section) (VecImpl.readAll_lines (getlines bytes))
    = Some s /\
    VecImpl.entries s <> [].
Proof.
  unfold VecImpl.readSection. rewrite vec_readAll_eq.
  destruct (open_in d) as [bytes|]; cbn [fst VecImpl.sections].
  - rewrite section_has_entries_first_section. split.
    + destruct (first_section _ _) as [s|] eqn:E; [| discriminate].
      intros H. exists bytes, s. repeat split; auto.
      destruct (VecImpl.entries s); [discriminate | discriminate].
    + intros (bytes' & s & Hb & Hs & He). injection Hb as Hb. subst bytes'.
      rewrite Hs. now destruct (VecImpl.entries s).
  - split; [discriminate |]. intros (bytes' & s & Hb & _). discriminate Hb.
Qed.

Lemma X14_vector_read_section_true_iff_witness :
  fst (VecImpl.readSection
         (mkDisk (Some ("[S]" +++ nl +++ "a=1" +++ nl)) true true)
         (VecImpl.mkFile []) (VecImpl.mkSection "S" [])) = true.
Proof.
  apply (proj2 (X14_vector_read_section_true_iff
                  (mkDisk (Some ("[S]" +++ nl +++ "a=1" +++ nl)) true true)
                  (VecImpl.mkFile []) (VecImpl.mkSection "S" []))).
  exists ("[S]" +++ nl +++ "a=1" +++ nl), (VecImpl.mkSection "S" [VecImpl.mkEntry "a" "1"]).
  split; [reflexivity |]. split; [reflexivity | discriminate].
Defined.

(** ** Brackets in keys and values *)

(** X15: Nothing is escaped when an entry is written: the line written for
    an entry whose key begins with ['['] and whose value ends with [']'] is
    taken by both [readAll] loops for a section header, named by the text
    between the brackets (the ['='] included), so the entry is not read
    back and what follows is read into a section nobody wrote. *)
Theorem X15_bracketed_entry_is_read_as_header (k v : string) :
  kv_line ("[" +++ k) (v +++ "]") = header_line (k +++ "=" +++ v) /\
  (forall (secs : list VecImpl.iniSection) (currentSection : option nat),
      VecImpl.readAll_line (secs, currentSection) (kv_line ("[" +++ k) (v +++ "]"))
      = (secs ++ [VecImpl.mkSection (k +++ "=" +++ v) []], Some (List.length secs))) /\
  (forall (U : MapImpl.unordered_map_impl) (outData : MapImpl.umap) (currentSection : string),
      MapImpl.readAll_line U (outData, currentSection) (kv_line ("[" +++ k) (v +++ "]"))
      = (outData, k +++ "=" +++ v)).
Proof.
  assert (E : kv_line ("[" +++ k) (v +++ "]") = header_line (k +++ "=" +++ v)).
  { unfold kv_line, header_line. now rewrite !append_assoc. }
  split; [exact E |]. rewrite E. split.
  - intros secs cur. apply vec_line_header.
  - intros U m cur. apply map_line_header.
Qed.

(** ** Which entry [writeEntry] changes *)

Lemma put_entries_first (e x : VecImpl.iniEntry) (pre post : list VecImpl.iniEntry) :
  Forall (fun y => VecImpl.name y <> VecImpl.name e) pre ->
  VecImpl.name x = VecImpl.name e ->
  VecImpl.put_entries e (pre ++ x :: post)
  = pre ++ VecImpl.mkEntry (VecImpl.name x) (VecImpl.value e) :: post.
Proof.
  intros Hpre Hx. induction Hpre as [|y pre Hy _ IH]; cbn [app]; rewrite put_entries_cons.
  - now rewrite Hx, String.eqb_refl.
  - apply String.eqb_neq in Hy. now rewrite Hy, IH.
Qed.

Lemma put_entries_absent (e : VecImpl.iniEntry) (es : list VecImpl.iniEntry) :
  Forall (fun y => VecImpl.name y <> VecImpl.name e) es ->
  VecImpl.put_entries e es = es ++ [e].
Proof.
  induction 1 as [|y es Hy _ IH]; [reflexivity |].
  rewrite put_entries_cons. apply String.eqb_neq in Hy. now rewrite Hy, IH.
Qed.

Lemma sections_after_entry_new (n : string) (e : VecImpl.iniEntry)
      (secs : list VecImpl.iniSection) :
  first_section n secs = None ->
  sections_after_entry n e secs = secs ++ [VecImpl.mkSection n [e]].
Proof.
  unfold first_section. induction secs as [|x r IH].
  - reflexivity.
  - cbn [List.find]. rewrite sections_after_entry_cons.
    destruct (String.eqb (VecImpl.section_name x) n); [discriminate |].
    intros H. cbn [app]. now rewrite IH.
Qed.

(** X16: Which entry [writeEntry] of the vector implementation changes.
    When the first section with the name has an entry with the key, only
    the value of the first such entry is replaced: the entries before and
    after it, later entries with the same key included, stay where they
    are.  When it has no entry with the key, the entry is appended to that
    section.  When no section has the name, a section holding only the
    entry is appended after all sections. *)
Theorem X16_vector_write_entry_changes_first_match
        (d d' : Disk) (file file0 file' : VecImpl.iniFile) (section key val : string) :
  VecImpl.readAll d file = (true, file0) ->
  VecImpl.writeEntry d file section (VecImpl.mkEntry key val) = (true, file', d') ->
  (forall s pre x post,
      first_section section (VecImpl.sections file0) = Some s ->
      VecImpl.entries s = pre ++ x :: post ->
      Forall (fun y => VecImpl.name y <> key) pre ->
      VecImpl.name x = key ->
      first_section section (VecImpl.sections file')
      = Some (VecImpl.mkSection (VecImpl.section_name s)
                                (pre ++ VecImpl.mkEntry key val :: post))) /\
  (forall s,
      first_section section (VecImpl.sections file0) = Some s ->
      Forall (fun y => VecImpl.name y <> key) (VecImpl.entries s) ->
      first_section section (VecImpl.sections file')
      = Some (VecImpl.mkSection (VecImpl.section_name s)
                                (VecImpl.entries s ++ [VecImpl.mkEntry key val]))) /\
  (first_section section (VecImpl.sections file0) = None ->
   VecImpl.sections file'
   = VecImpl.sections file0 ++ [VecImpl.mkSection section [VecImpl.mkEntry key val]]).
Proof.
  intros Hr Hw. rewrite vec_readAll_eq in Hr. rewrite vec_writeEntry_eq in Hw.
  destruct (open_in d) as [bytes|]; [| discriminate].
  injection Hr as Hr. subst file0. cbv zeta in Hw.
  destruct (open_out d _) as [d1|]; [| discriminate].
  injection Hw as Hf _. subst file'. cbn [VecImpl.sections].
  split; [| split].
  - intros s pre x post Hs He Hpre Hx.
    rewrite (first_section_after_entry _ _ _ _ Hs).
    unfold VecImpl.put_entry. rewrite He.
    rewrite put_entries_first by assumption.
    cbn [VecImpl.value]. now rewrite Hx.
  - intros s Hs Hes.
    rewrite (first_section_after_entry _ _ _ _ Hs).
    unfold VecImpl.put_entry. now rewrite put_entries_absent.
  - intros Hs. now apply sections_after_entry_new.
Qed.

Lemma X16_vector_write_entry_changes_first_match_witness :
  first_section "S"
    [VecImpl.mkSection "S" [VecImpl.mkEntry "a" "1"; VecImpl.mkEntry "k" "new";
                            VecImpl.mkEntry "k" "old2"]]
  = Some (VecImpl.mkSection "S"
            ([VecImpl.mkEntry "a" "1"] ++ VecImpl.mkEntry "k" "new"
               :: [VecImpl.mkEntry "k" "old2"])).
Proof.
  assert (Hne : "a"%string <> "k"%string) by discriminate.
  apply (proj1 (X16_vector_write_entry_changes_first_match
                  (mkDisk (Some ("[S]" +++ nl +++ "a=1" +++ nl +++ "k=old1" +++ nl
                                 +++ "k=old2" +++ nl)) true true)
                  (mkDisk (Some ("[S]" +++ nl +++ "a=1" +++ nl +++ "k=new" +++ nl
                                 +++ "k=old2" +++ nl +++ nl)) true true)
                  (VecImpl.mkFile [])
                  (VecImpl.mkFile [VecImpl.mkSection "S"
                                     [VecImpl.mkEntry "a" "1"; VecImpl.mkEntry "k" "old1";
                                      VecImpl.mkEntry "k" "old2"]])
                  (VecImpl.mkFile [VecImpl.mkSection "S"
                                     [VecImpl.mkEntry "a" "1"; VecImpl.mkEntry "k" "new";
                                      VecImpl.mkEntry "k" "old2"]])
                  "S" "k" "new" eq_refl eq_refl)
               (VecImpl.mkSection "S" [VecImpl.mkEntry "a" "1"; VecImpl.mkEntry "k" "old1";
                                       VecImpl.mkEntry "k" "old2"])
               [VecImpl.mkEntry "a" "1"] (VecImpl.mkEntry "k" "old1")
               [VecImpl.mkEntry "k" "old2"] eq_refl eq_refl).
  - constructor; [exact Hne | constructor].
  - reflexivity.
Defined.

(** ** Sections with the same name in the map implementation *)

Lemma map_read_body (U : MapImpl.unordered_map_impl) (body : list string) :
  Forall (fun l => is_header l = false) body ->
  forall (m : MapImpl.umap) (n : string),
    NoDup (keys m) ->
    exists m',
      fold_left (MapImpl.readAll_line U) body (m, n) = (m', n) /\
      NoDup (keys m') /\
      forall k, MapImpl.lookup k m' =
                if String.eqb n k
                then merged (MapImpl.lookup n m) (Some (pairs_of_lines body))
                else MapImpl.lookup k m.
Proof.
  induction 1 as [|l body Hl _ IH]; intros m n Hnd.
  - exists m. repeat split; auto. intros k. cbn [pairs_of_lines flat_map merged].
    destruct (String.eqb_spec n k) as [E|E]; [now subst k | reflexivity].
  - cbn [fold_left]. unfold pairs_of_lines. cbn [flat_map]. fold (pairs_of_lines body).
    destruct (split_line l) as [[k0 v0]|] eqn:Hs.
    + rewrite (map_line_entry U _ _ _ _ _ Hs).
      destruct (IH (MapImpl.emplace_back U n (k0, v0) m) n) as (m' & Hm' & Hnd' & Hlk).
      { now apply emplace_back_nodup. }
      exists m'. repeat split; auto. intros k. rewrite Hlk.
      rewrite !lookup_emplace_back by exact Hnd. rewrite String.eqb_refl.
      destruct (String.eqb n k); [| reflexivity].
      unfold merged, at_key. cbn [app].
      destruct (pairs_of_lines body) as [|e es]; destruct (MapImpl.lookup n m);
        cbn [app]; try reflexivity; now rewrite <- app_assoc.
    + rewrite (map_line_skipped U _ _ Hl Hs). cbn [app].
      destruct (IH m n Hnd) as (m' & Hm' & Hnd' & Hlk).
      exists m'. repeat split; auto.
Qed.

(** X17: How the map implementation merges.  The pairs on the lines after a
    header line, up to the next header line, are appended, in file order,
    behind the pairs the map already holds under the name of the header, so
    sections with the same name become one, with the entries of all of them
    in file order; a header followed by no pair changes nothing; and what
    the map holds under every other name is untouched. *)
Theorem X17_map_merges_same_named_sections
        (U : MapImpl.unordered_map_impl) (pre body : list string) (n : string) :
  Forall (fun l => is_header l = false) body ->
  forall k,
    MapImpl.lookup k (MapImpl.readAll_lines U (pre ++ header_line n :: body)) =
    if String.eqb n k
    then merged (MapImpl.lookup n (MapImpl.readAll_lines U pre)) (Some (pairs_of_lines body))
    else MapImpl.lookup k (MapImpl.readAll_lines U pre).
Proof.
  intros Hbody k. unfold MapImpl.readAll_lines. rewrite fold_left_app. cbn [fold_left].
  pose proof (map_lines_nodup U pre ([], EmptyString) (NoDup_nil _)) as Hnd.
  destruct (fold_left (MapImpl.readAll_line U) pre ([], EmptyString)) as [m cur].
  cbn [fst] in Hnd |- *. rewrite map_line_header.
  destruct (map_read_body U body Hbody m n Hnd) as (m' & Hm' & _ & Hlk).
  rewrite Hm'. cbn [fst]. apply Hlk.
Qed.

Lemma X17_map_merges_same_named_sections_witness :
  MapImpl.lookup "S"
    (MapImpl.readAll_lines MapImpl.front_inserting
       (["[S]"; "a=1"; "[T]"; "x=y"] ++ header_line "S" :: ["b=2"; "junk"; "a=3"]))
  = Some [("a", "1"); ("b", "2"); ("a", "3")].
Proof.
  apply (X17_map_merges_same_named_sections MapImpl.front_inserting
           ["[S]"; "a=1"; "[T]"; "x=y"] ["b=2"; "junk"; "a=3"] "S").
  repeat constructor.
Defined.

(** * The readers, stated on the lines of the file *)

(** ** The map implementation *)

Lemma at_key_emplace_back (U : MapImpl.unordered_map_impl) (n cur : string)
      (e : MapImpl.kv) (m : MapImpl.umap) :
  NoDup (keys m) ->
  at_key n (MapImpl.emplace_back U cur e m) =
  if String.eqb cur n then at_key n m ++ [e] else at_key n m.
Proof.
  intros Hnd. unfold at_key at 1. rewrite lookup_emplace_back by exact Hnd.
  destruct (String.eqb_spec cur n) as [E|E]; [now subst cur | reflexivity].
Qed.

(** What the map of [readAll] holds under a name is what the file shows
    under it. *)
Lemma map_at_key_pairs_under (U : MapImpl.unordered_map_impl) (n : string)
      (lines : list string) :
  forall (m : MapImpl.umap) (cur : string),
    NoDup (keys m) ->
    at_key n (fst (fold_left (MapImpl.readAll_line U) lines (m, cur)))
    = at_key n m ++ pairs_under n cur lines.
Proof.
  induction lines as [|l ls IH]; intros m cur Hnd.
  - cbn [fold_left fst pairs_under]. now rewrite app_nil_r.
  - cbn [fold_left pairs_under]. destruct (is_header l) eqn:Hh.
    + assert (E : MapImpl.readAll_line U (m, cur) l
                  = (m, substr 1 (String.length l - 2) l)).
      { unfold MapImpl.readAll_line. now rewrite (is_header_not_empty l Hh), Hh. }
      rewrite E. now apply IH.
    + destruct (split_line l) as [[k v]|] eqn:Hs.
      * rewrite (map_line_entry U _ _ _ _ _ Hs).
        rewrite IH by now apply emplace_back_nodup.
        rewrite at_key_emplace_back by exact Hnd.
        destruct (String.eqb cur n); [now rewrite <- app_assoc | reflexivity].
      * rewrite (map_line_skipped U _ _ Hh Hs). now apply IH.
Qed.

Lemma map_lookup_pairs_under (U : MapImpl.unordered_map_impl) (n : string)
      (lines : list string) :
  MapImpl.lookup n (MapImpl.readAll_lines U lines) =
  match pairs_under n EmptyString lines with
  | [] => None
  | e :: es => Some (e :: es)
  end.
Proof.
  unfold MapImpl.readAll_lines.
  set (o := MapImpl.lookup n _).
  assert (H : match o with Some es => es | None => [] end
              = pairs_under n EmptyString lines)
    by exact (map_at_key_pairs_under U n lines [] EmptyString (NoDup_nil _)).
  assert (Hne : forall es, o = Some es -> es <> [])
    by exact (map_readAll_nonempty U lines n).
  clearbody o. rewrite <- H.
  destruct o as [[|e es]|]; try reflexivity.
  now contradiction (Hne [] eq_refl).
Qed.

Lemma pairs_under_no_header (n cur : string) (lines : list string) :
  cur <> n -> ~ In n (header_names lines) -> pairs_under n cur lines = [].
Proof.
  revert cur. induction lines as [|l ls IH]; intros cur Hc Hn; [reflexivity |].
  rewrite header_names_cons in Hn. cbn [pairs_under].
  destruct (is_header l).
  - apply IH.
    + intros E. apply Hn. left. exact E.
    + intros Hin. apply Hn. right. exact Hin.
  - apply String.eqb_neq in Hc. rewrite Hc.
    cbn [app] in Hn. apply String.eqb_neq in Hc.
    destruct (split_line l) as [[k v]|]; now apply IH.
Qed.

(** ** The vector implementation *)

Lemma first_section_None_iff (n : string) (secs : list VecImpl.iniSection) :
  first_section n secs = None <-> ~ In n (map VecImpl.section_name secs).
Proof.
  unfold first_section. induction secs as [|x r IH]; cbn [List.find map In].
  - tauto.
  - destruct (String.eqb_spec (VecImpl.section_name x) n) as [E|E].
    + split; [discriminate | intros H; exfalso; apply H; now left].
    + rewrite IH. tauto.
Qed.

Lemma first_section_app_l (n : string) (s : VecImpl.iniSection)
      (secs rest : list VecImpl.iniSection) :
  first_section n secs = None -> VecImpl.section_name s = n ->
  first_section n (secs ++ s :: rest) = Some s.
Proof.
  unfold first_section. intros H Hs. induction secs as [|x r IH]; cbn [app List.find].
  - now rewrite Hs, String.eqb_refl.
  - cbn [List.find] in H. destruct (String.eqb (VecImpl.section_name x) n);
      [discriminate | now apply IH].
Qed.

Lemma section_entry_value_first_section (n k : string) (secs : list VecImpl.iniSection) :
  VecImpl.section_entry_value n k secs =
  match first_section n secs with
  | Some s => VecImpl.entry_value k (VecImpl.entries s)
  | None => EmptyString
  end.
Proof.
  unfold first_section. induction secs as [|x r IH]; [reflexivity |].
  cbn [VecImpl.section_entry_value List.find].
  now destruct (String.eqb (VecImpl.section_name x) n).
Qed.

Lemma modify_at_app_r {A : Type} (f : A -> A) (l1 l2 : list A) (i : nat) :
  List.length l1 <= i ->
  modify_at f i (l1 ++ l2) = l1 ++ modify_at f (i - List.length l1) l2.
Proof.
  revert i. induction l1 as [|x l1 IH]; intros i Hi.
  - cbn [app List.length]. now rewrite Nat.sub_0_r.
  - cbn [List.length] in Hi. destruct i as [|i]; [lia |].
    cbn [app modify_at List.length Nat.sub]. rewrite IH by lia. reflexivity.
Qed.

(** Sections that precede the current one are out of reach of the loop. *)
Lemma vec_line_keeps_prefix (secs0 t : list VecImpl.iniSection) (i : nat) (line : string) :
  List.length secs0 <= i ->
  exists t' i',
    VecImpl.readAll_line (secs0 ++ t, Some i) line = (secs0 ++ t', Some i') /\
    List.length secs0 <= i'.
Proof.
  intros Hi. unfold VecImpl.readAll_line.
  destruct (empty line); [now exists t, i |].
  destruct (is_header line).
  - eexists (t ++ [_]), _. rewrite <- app_assoc. split; [reflexivity |].
    rewrite length_app. lia.
  - destruct (find "="%char line) as [pos|]; [| now exists t, i].
    eexists _, i. rewrite modify_at_app_r by exact Hi. split; [reflexivity | exact Hi].
Qed.

Lemma vec_lines_keep_prefix (lines : list string) :
  forall (secs0 t : list VecImpl.iniSection) (i : nat),
    List.length secs0 <= i ->
    exists t', fst (fold_left VecImpl.readAll_line lines (secs0 ++ t, Some i)) = secs0 ++ t'.
Proof.
  induction lines as [|l ls IH]; intros secs0 t i Hi.
  - now exists t.
  - cbn [fold_left].
    destruct (vec_line_keeps_prefix secs0 t i l Hi) as (t' & i' & E & Hi').
    rewrite E. now apply IH.
Qed.

Lemma vec_first_block_open (n : string) (ls : list string) :
  forall (secs : list VecImpl.iniSection) (s : VecImpl.iniSection),
    first_section n secs = None -> VecImpl.section_name s = n ->
    first_section n (fst (fold_left VecImpl.readAll_line ls
                            (secs ++ [s], Some (List.length secs))))
    = Some (VecImpl.mkSection n (VecImpl.entries s ++ body_entries ls)).
Proof.
  induction ls as [|l ls IH]; intros secs s Hsecs Hs.
  - cbn [fold_left fst body_entries]. rewrite app_nil_r.
    rewrite (first_section_app_l n s secs [] Hsecs Hs). destruct s. cbn in Hs. now subst.
  - cbn [fold_left body_entries]. destruct (is_header l) eqn:Hh.
    + assert (E : VecImpl.readAll_line (secs ++ [s], Some (List.length secs)) l
                  = ((secs ++ [s]) ++ [VecImpl.mkSection (substr 1 (String.length l - 2) l) []],
                     Some (List.length (secs ++ [s])))).
      { unfold VecImpl.readAll_line. now rewrite (is_header_not_empty l Hh), Hh. }
      rewrite E.
      destruct (vec_lines_keep_prefix ls (secs ++ [s])
                  [VecImpl.mkSection (substr 1 (String.length l - 2) l) []]
                  (List.length (secs ++ [s])) (le_n _)) as (t' & Ht').
      rewrite Ht', <- app_assoc. cbn [app].
      rewrite (first_section_app_l n s secs t' Hsecs Hs).
      rewrite app_nil_r. destruct s. cbn in Hs. now subst.
    + destruct (split_line l) as [[k v]|] eqn:Hsp.
      * rewrite (vec_line_entry _ _ _ _ _ Hsp).
        rewrite IH by assumption.
        unfold VecImpl.push_entry. cbn [VecImpl.entries].
        rewrite <- app_assoc. reflexivity.
      * rewrite (vec_line_skipped _ _ Hh Hsp). now apply IH.
Qed.

(** The first section with a name that [readAll] yields is the first
    section with the name that the file shows. *)
Lemma vec_first_block (n : string) (lines : list string) :
  forall st : list VecImpl.iniSection * option nat,
    first_section n (fst st) = None ->
    first_section n (fst (fold_left VecImpl.readAll_line lines st))
    = option_map (VecImpl.mkSection n) (first_block n lines).
Proof.
  induction lines as [|l ls IH]; intros [secs cur] Hst; cbn [fst] in Hst.
  - exact Hst.
  - cbn [fold_left first_block]. destruct (is_header l) eqn:Hh; cbn [andb].
    + assert (E : VecImpl.readAll_line (secs, cur) l
                  = (secs ++ [VecImpl.mkSection (substr 1 (String.length l - 2) l) []],
                     Some (List.length secs))).
      { unfold VecImpl.readAll_line. now rewrite (is_header_not_empty l Hh), Hh. }
      rewrite E.
      destruct (String.eqb_spec (substr 1 (String.length l - 2) l) n) as [En|En].
      * rewrite (vec_first_block_open n ls secs
                   (VecImpl.mkSection (substr 1 (String.length l - 2) l) []) Hst En).
        reflexivity.
      * apply IH. cbn [fst]. apply first_section_None_iff.
        rewrite map_app. cbn [map VecImpl.section_name]. intros Hin.
        apply in_app_or in Hin. destruct Hin as [Hin | [Hin | []]].
        -- now apply first_section_None_iff in Hst.
        -- now apply En.
    + apply IH. apply first_section_None_iff.
      rewrite vec_line_names, Hh, app_nil_r. now apply first_section_None_iff.
Qed.

Lemma vec_readAll_first_block (n : string) (lines : list string) :
  first_section n (VecImpl.readAll_lines lines)
  = option_map (VecImpl.mkSection n) (first_block n lines).
Proof. apply (vec_first_block n lines ([], None)). reflexivity. Qed.

Lemma first_block_None_iff (n : string) (lines : list string) :
  first_block n lines = None <-> ~ In n (header_names lines).
Proof.
  induction lines as [|l ls IH].
  - cbn. tauto.
  - rewrite header_names_cons. cbn [first_block]. destruct (is_header l); cbn [andb app].
    + destruct (String.eqb_spec (substr 1 (String.length l - 2) l) n) as [E|E].
      * split; [discriminate | intros H; exfalso; apply H; now left].
      * rewrite IH. cbn [In]. tauto.
    + exact IH.
Qed.

Lemma vec_readEntry_on_file (d : Disk) (file : VecImpl.iniFile) (bytes section : string)
      (entry : VecImpl.iniEntry) :
  open_in d = Some bytes ->
  fst (VecImpl.readEntry d file section entry) =
  match first_block section (getlines bytes) with
  | Some es => VecImpl.entry_value (VecImpl.name entry) es
  | None => EmptyString
  end.
Proof.
  intros Hin. unfold VecImpl.readEntry. rewrite vec_readAll_eq, Hin.
  cbn [fst VecImpl.sections].
  rewrite section_entry_value_first_section, vec_readAll_first_block.
  now destruct (first_block section (getlines bytes)).
Qed.

(** ** [readValue] and [readEntry] on the file *)

(** C7, as stated, fails on the map implementation when two header lines
    have the same name: the first section named ["S"] of the file has no
    entry with key ["K"], yet [readValue("S","K")] returns the value of the
    ["K"] that stands under the second header. *)
Lemma C7_counterexample :
  first_block "S" (getlines ("[S]" +++ nl +++ "A=1" +++ nl +++ "[S]" +++ nl +++ "K=2" +++ nl))
  = Some [VecImpl.mkEntry "A" "1"]
  /\
  MapImpl.readValue MapImpl.back_inserting
    (mkDisk (Some ("[S]" +++ nl +++ "A=1" +++ nl +++ "[S]" +++ nl +++ "K=2" +++ nl))
            true true) "S" "K"
  = "2".
Proof. split; reflexivity. Qed.

(** C7 (amended): On a file that can be read.  Vector implementation:
    [readEntry(section, key)] returns the empty string when no header line
    of the file has the name, and when the first section with the name (the
    key=value lines between the first header line with the name and the
    next header line) has no entry with the key; otherwise it returns the
    value of the first entry with the key in that first section.  Map
    implementation: [readValue(section, key)] returns the value of the first
    pair with the key among all key=value lines that stand under the name
    anywhere in the file (under any header line with the name, and for the
    empty name also before the first header line), and the empty string
    when there is none. *)
Theorem C7_read_value_on_the_file :
  (forall (d : Disk) (file : VecImpl.iniFile) (bytes section : string)
          (entry : VecImpl.iniEntry),
      open_in d = Some bytes ->
      (~ In section (header_names (getlines bytes)) ->
       fst (VecImpl.readEntry d file section entry) = EmptyString) /\
      (forall es,
          first_block section (getlines bytes) = Some es ->
          (Forall (fun e => VecImpl.name e <> VecImpl.name entry) es ->
           fst (VecImpl.readEntry d file section entry) = EmptyString) /\
          (forall epre e epost,
              es = epre ++ e :: epost ->
              Forall (fun x => VecImpl.name x <> VecImpl.name entry) epre ->
              VecImpl.name e = VecImpl.name entry ->
              fst (VecImpl.readEntry d file section entry) = VecImpl.value e)))
  /\
  (forall (U : MapImpl.unordered_map_impl) (d : Disk) (bytes section key : string),
      open_in d = Some bytes ->
      (~ In key (map fst (pairs_under section EmptyString (getlines bytes))) ->
       MapImpl.readValue U d section key = EmptyString) /\
      (forall pre v post,
          pairs_under section EmptyString (getlines bytes) = pre ++ (key, v) :: post ->
          ~ In key (map fst pre) ->
          MapImpl.readValue U d section key = v)).
Proof.
  split.
  - intros d file bytes section entry Hin.
    rewrite (vec_readEntry_on_file d file bytes section entry Hin). split.
    + intros H. apply first_block_None_iff in H. now rewrite H.
    + intros es Hes. rewrite Hes. split.
      * apply entry_value_absent.
      * intros epre e epost E Hpre Hn. subst es. now apply entry_value_first.
  - intros U d bytes section key Hin.
    rewrite (map_readValue_eq U d bytes) by exact Hin.
    rewrite map_lookup_pairs_under. split.
    + intros H. destruct (pairs_under section EmptyString (getlines bytes)) as [|e es];
        [reflexivity | now apply first_value_absent].
    + intros pre v post E Hpre. rewrite E.
      remember (pre ++ (key, v) :: post) as L eqn:EL.
      assert (Hv : MapImpl.first_value key L = v)
        by (subst L; now apply first_value_first).
      destruct L as [|e es]; [now destruct pre | exact Hv].
Qed.

Lemma C7_read_value_on_the_file_witness :
  fst (VecImpl.readEntry
         (mkDisk (Some ("[S]" +++ nl +++ "A=1" +++ nl +++ "K=2" +++ nl +++ "K=3" +++ nl
                        +++ "[S]" +++ nl +++ "K=4" +++ nl)) true true)
         (VecImpl.mkFile []) "S" (VecImpl.mkEntry "K" EmptyString)) = "2"
  /\
  fst (VecImpl.readEntry
         (mkDisk (Some ("[S]" +++ nl +++ "A=1" +++ nl +++ "[S]" +++ nl +++ "K=2" +++ nl))
                 true true)
         (VecImpl.mkFile []) "S" (VecImpl.mkEntry "K" EmptyString)) = EmptyString
  /\
  MapImpl.readValue MapImpl.back_inserting
    (mkDisk (Some ("k=0" +++ nl +++ "[S]" +++ nl +++ "A=1" +++ nl +++ "[T]" +++ nl
                   +++ "K=9" +++ nl +++ "[S]" +++ nl +++ "K=2" +++ nl +++ "K=3" +++ nl))
            true true) "S" "K" = "2".
Proof.
  assert (Hne : "A"%string <> "K"%string) by discriminate.
  split; [| split].
  - apply (proj2 (proj1 C7_read_value_on_the_file
                    (mkDisk (Some ("[S]" +++ nl +++ "A=1" +++ nl +++ "K=2" +++ nl +++ "K=3" +++ nl
                                   +++ "[S]" +++ nl +++ "K=4" +++ nl)) true true)
                    (VecImpl.mkFile []) _ "S" (VecImpl.mkEntry "K" EmptyString) eq_refl)
                 [VecImpl.mkEntry "A" "1"; VecImpl.mkEntry "K" "2"; VecImpl.mkEntry "K" "3"]
                 eq_refl)
      with (epre := [VecImpl.mkEntry "A" "1"]) (e := VecImpl.mkEntry "K" "2")
           (epost := [VecImpl.mkEntry "K" "3"]).
    + reflexivity.
    + constructor; [exact Hne | constructor].
    + reflexivity.
  - apply (proj2 (proj1 C7_read_value_on_the_file
                    (mkDisk (Some ("[S]" +++ nl +++ "A=1" +++ nl +++ "[S]" +++ nl +++ "K=2" +++ nl))
                            true true)
                    (VecImpl.mkFile []) _ "S" (VecImpl.mkEntry "K" EmptyString) eq_refl)
                 [VecImpl.mkEntry "A" "1"] eq_refl).
    constructor; [exact Hne | constructor].
  - apply (proj2 C7_read_value_on_the_file MapImpl.back_inserting
             (mkDisk (Some ("k=0" +++ nl +++ "[S]" +++ nl +++ "A=1" +++ nl +++ "[T]" +++ nl
                            +++ "K=9" +++ nl +++ "[S]" +++ nl +++ "K=2" +++ nl +++ "K=3" +++ nl))
                     true true) _ "S" "K" eq_refl)
      with (pre := [("A", "1")]) (post := [("K", "3")]).
    + reflexivity.
    + cbn [map fst In]. intros [H | []]. exact (Hne H).
Defined.

(** ** [readSection] of the map implementation on the file *)

(** C10, as stated, fails on a readable file that has no header line at
    all: the pair of its key=value line is stored under the empty name, and
    [readSection] of the empty name returns [true] with that pair. *)
Lemma C10_counterexample :
  header_names (getlines ("k=v" +++ nl)) = [] /\
  MapImpl.readSection MapImpl.back_inserting
    (mkDisk (Some ("k=v" +++ nl)) true true) EmptyString [("old", "pair")]
  = (true, [("k", "v")]).
Proof. split; reflexivity. Qed.

(** C10 (amended): [readSection] of the map implementation.  On a file that
    can be read and in which no key=value line stands under the name (in
    particular when the name is not empty and no header line has it) it
    returns [false] and [outEntries] is empty, whatever the caller passed;
    when key=value lines stand under the name (for the empty name also
    those before the first header line) it returns [true] with their pairs
    in file order; on a file that cannot be opened for reading it returns
    [false] and [outEntries] is what the caller passed. *)
Theorem C10_read_section_not_found
        (U : MapImpl.unordered_map_impl) (d : Disk) (section : string)
        (outEntries : list MapImpl.kv) :
  (forall bytes,
      open_in d = Some bytes ->
      pairs_under section EmptyString (getlines bytes) = [] ->
      MapImpl.readSection U d section outEntries = (false, []))
  /\
  (forall bytes,
      open_in d = Some bytes ->
      section <> EmptyString ->
      ~ In section (header_names (getlines bytes)) ->
      MapImpl.readSection U d section outEntries = (false, []))
  /\
  (forall bytes e es,
      open_in d = Some bytes ->
      pairs_under section EmptyString (getlines bytes) = e :: es ->
      MapImpl.readSection U d section outEntries = (true, e :: es))
  /\
  (open_in d = None -> MapImpl.readSection U d section outEntries = (false, outEntries)).
Proof.
  assert (H0 : forall bytes,
             open_in d = Some bytes ->
             pairs_under section EmptyString (getlines bytes) = [] ->
             MapImpl.readSection U d section outEntries = (false, [])).
  { intros bytes Hin Hp. rewrite (map_readSection_eq U d bytes) by exact Hin.
    now rewrite map_lookup_pairs_under, Hp. }
  split; [exact H0 |]. split; [| split].
  - intros bytes Hin Hne Hn. apply (H0 bytes Hin).
    apply pairs_under_no_header; [congruence | exact Hn].
  - intros bytes e es Hin Hp. rewrite (map_readSection_eq U d bytes) by exact Hin.
    now rewrite map_lookup_pairs_under, Hp.
  - intros Hin. unfold MapImpl.readSection. rewrite map_readAll_eq. now rewrite Hin.
Qed.

Lemma C10_read_section_not_found_witness :
  MapImpl.readSection MapImpl.front_inserting
    (mkDisk (Some ("k=v" +++ nl +++ "[T]" +++ nl +++ "x=y" +++ nl +++ "[S]" +++ nl))
            true true) "S" [("old", "pair")]
  = (false, [])
  /\
  MapImpl.readSection MapImpl.front_inserting
    (mkDisk (Some ("k=v" +++ nl +++ "[T]" +++ nl +++ "x=y" +++ nl)) true true)
    "U" [("old", "pair")]
  = (false, [])
  /\
  MapImpl.readSection MapImpl.front_inserting
    (mkDisk (Some ("[S]" +++ nl +++ "x=y" +++ nl)) false true) "S" [("old", "pair")]
  = (false, [("old", "pair")]).
Proof.
  split; [| split].
  - apply (proj1 (C10_read_section_not_found MapImpl.front_inserting
                    (mkDisk (Some ("k=v" +++ nl +++ "[T]" +++ nl +++ "x=y" +++ nl
                                   +++ "[S]" +++ nl)) true true)
                    "S" [("old", "pair")])
                 ("k=v" +++ nl +++ "[T]" +++ nl +++ "x=y" +++ nl +++ "[S]" +++ nl)).
    + reflexivity.
    + reflexivity.
  - apply (proj1 (proj2 (C10_read_section_not_found MapImpl.front_inserting
                           (mkDisk (Some ("k=v" +++ nl +++ "[T]" +++ nl +++ "x=y" +++ nl))
                                   true true)
                           "U" [("old", "pair")]))
                 ("k=v" +++ nl +++ "[T]" +++ nl +++ "x=y" +++ nl)).
    + reflexivity.
    + discriminate.
    + cbn. intros [H | []]. discriminate H.
  - apply (proj2 (proj2 (proj2 (C10_read_section_not_found MapImpl.front_inserting
                    (mkDisk (Some ("[S]" +++ nl +++ "x=y" +++ nl)) false true)
                    "S" [("old", "pair")])))).
    reflexivity.
Defined.

(** ** Update in place, on the file *)

(** C5, as stated, fails on the map implementation when two header lines
    have the same name: the first section named ["S"] of the file has
    exactly one entry with key ["K"], but the map merges both sections, so
    after [writeValue("S","K","new")] the section read back has two entries
    with key ["K"]. *)
Lemma C5_counterexample :
  first_block "S" (getlines ("[S]" +++ nl +++ "K=old" +++ nl +++ "[S]" +++ nl +++ "K=x" +++ nl))
  = Some [VecImpl.mkEntry "K" "old"]
  /\
  MapImpl.writeValue MapImpl.back_inserting
    (mkDisk (Some ("[S]" +++ nl +++ "K=old" +++ nl +++ "[S]" +++ nl +++ "K=x" +++ nl))
            true true) "S" "K" "new"
  = (true, mkDisk (Some ("[S]" +++ nl +++ "K=new" +++ nl +++ "K=x" +++ nl +++ nl)) true true)
  /\
  MapImpl.readSection MapImpl.back_inserting
    (mkDisk (Some ("[S]" +++ nl +++ "K=new" +++ nl +++ "K=x" +++ nl +++ nl)) true true)
    "S" []
  = (true, [("K", "new"); ("K", "x")]).
Proof. repeat split; reflexivity. Qed.

(** C5 (amended): Update in place.  Vector implementation: for every file
    that can be read and whose first section named ["S"] (the key=value
    lines between the first header line ["[S]"] and the next header line)
    has exactly one entry with key ["K"], after a successful [writeEntry],
    [writeEntry_str] or [writeValue] of ["K"], ["new"] into ["S"] the first
    section named ["S"] of the rewritten file has exactly one entry with
    key ["K"], its value is ["new"], and [readEntry] returns ["new"].  Map
    implementation: for every file that can be read and in which the
    key=value lines that stand under the name ["S"], under all header lines
    ["[S]"] together, include exactly one with key ["K"], after a
    successful [writeValue("S","K","new")] a [readSection("S")] returns
    [true] with entries of which exactly one has key ["K"], and its value is
    ["new"]. *)
Theorem C5_write_value_updates_in_place :
  (forall (d d1 : Disk) (file file1 file' : VecImpl.iniFile) (bytes : string)
          (es : list VecImpl.iniEntry) (old : string),
      open_in d = Some bytes ->
      first_block "S" (getlines bytes) = Some es ->
      entries_named "K" es = [VecImpl.mkEntry "K" old] ->
      VecImpl.writeEntry d file "S" (VecImpl.mkEntry "K" "new") = (true, file1, d1)
      \/ VecImpl.writeEntry_str d file "S" "K" "new" = (true, file1, d1)
      \/ VecImpl.writeValue d file "S" "K" "new" = (true, file1, d1) ->
      exists bytes1 es',
        open_in d1 = Some bytes1 /\
        first_block "S" (getlines bytes1) = Some es' /\
        entries_named "K" es' = [VecImpl.mkEntry "K" "new"] /\
        fst (VecImpl.readEntry d1 file' "S" (VecImpl.mkEntry "K" EmptyString)) = "new")
  /\
  (forall (U : MapImpl.unordered_map_impl) (d d1 : Disk) (bytes : string)
          (out : list MapImpl.kv) (old : string),
      open_in d = Some bytes ->
      pairs_with "K" (pairs_under "S" EmptyString (getlines bytes)) = [("K", old)] ->
      MapImpl.writeValue U d "S" "K" "new" = (true, d1) ->
      exists es',
        MapImpl.readSection U d1 "S" out = (true, es') /\
        pairs_with "K" es' = [("K", "new")]).
Proof.
  split.
  - intros d d1 file file1 file' bytes es old Hin Hb Hk Hw.
    destruct (proj2 write_value_updates_parsed d d1 file
                (VecImpl.mkFile (VecImpl.readAll_lines (getlines bytes))) file1 file'
                (VecImpl.mkSection "S" es) old)
      as (file2 & s' & Hr & Hs' & Hn & Hre); auto.
    + now rewrite vec_readAll_eq, Hin.
    + cbn [VecImpl.sections]. now rewrite vec_readAll_first_block, Hb.
    + rewrite vec_readAll_eq in Hr.
      destruct (open_in d1) as [bytes1|] eqn:Hin1; [| discriminate].
      injection Hr as Hr. subst file2. cbn [VecImpl.sections] in Hs'.
      rewrite vec_readAll_first_block in Hs'.
      destruct (first_block "S" (getlines bytes1)) as [es'|] eqn:Hb1; [| discriminate].
      injection Hs' as Hs'. subst s'. cbn [VecImpl.entries] in Hn.
      exists bytes1, es'. repeat split; auto.
  - intros U d d1 bytes out old Hin Hk Hw.
    apply (proj1 write_value_updates_parsed U d d1
             (MapImpl.readAll_lines U (getlines bytes))
             (pairs_under "S" EmptyString (getlines bytes)) out old); auto.
    + now rewrite map_readAll_eq, Hin.
    + apply lookup_Some_In. rewrite map_lookup_pairs_under.
      destruct (pairs_under "S" EmptyString (getlines bytes)); [discriminate Hk | reflexivity].
Qed.

Lemma C5_write_value_updates_in_place_witness :
  (exists bytes1 es',
      open_in (mkDisk (Some ("[S]" +++ nl +++ "A=1" +++ nl +++ "K=new" +++ nl +++ nl +++
                             "[S]" +++ nl +++ "K=x" +++ nl +++ nl)) true true)
      = Some bytes1 /\
      first_block "S" (getlines bytes1) = Some es' /\
      entries_named "K" es' = [VecImpl.mkEntry "K" "new"] /\
      fst (VecImpl.readEntry
             (mkDisk (Some ("[S]" +++ nl +++ "A=1" +++ nl +++ "K=new" +++ nl +++ nl +++
                            "[S]" +++ nl +++ "K=x" +++ nl +++ nl)) true true)
             (VecImpl.mkFile []) "S" (VecImpl.mkEntry "K" EmptyString)) = "new")
  /\
  (exists es',
      MapImpl.readSection MapImpl.front_inserting
        (mkDisk (Some ("[S]" +++ nl +++ "A=1" +++ nl +++ "K=new" +++ nl +++ nl)) true true)
        "S" [] = (true, es') /\
      pairs_with "K" es' = [("K", "new")]).
Proof.
  split.
  - apply (proj1 C5_write_value_updates_in_place
             (mkDisk (Some ("[S]" +++ nl +++ "A=1" +++ nl +++ "K=old" +++ nl +++
                            "[S]" +++ nl +++ "K=x" +++ nl)) true true)
             (mkDisk (Some ("[S]" +++ nl +++ "A=1" +++ nl +++ "K=new" +++ nl +++ nl +++
                            "[S]" +++ nl +++ "K=x" +++ nl +++ nl)) true true)
             (VecImpl.mkFile [])
             (VecImpl.mkFile [VecImpl.mkSection "S" [VecImpl.mkEntry "A" "1";
                                                     VecImpl.mkEntry "K" "new"];
                              VecImpl.mkSection "S" [VecImpl.mkEntry "K" "x"]])
             (VecImpl.mkFile [])
             ("[S]" +++ nl +++ "A=1" +++ nl +++ "K=old" +++ nl +++
              "[S]" +++ nl +++ "K=x" +++ nl)
             [VecImpl.mkEntry "A" "1"; VecImpl.mkEntry "K" "old"] "old").
    + reflexivity.
    + reflexivity.
    + reflexivity.
    + left. reflexivity.
  - apply (proj2 C5_write_value_updates_in_place MapImpl.front_inserting
             (mkDisk (Some ("[S]" +++ nl +++ "A=1" +++ nl +++ "K=old" +++ nl)) true true)
             (mkDisk (Some ("[S]" +++ nl +++ "A=1" +++ nl +++ "K=new" +++ nl +++ nl)) true true)
             ("[S]" +++ nl +++ "A=1" +++ nl +++ "K=old" +++ nl) [] "old").
    + reflexivity.
    + reflexivity.
    + reflexivity.
Defined.
